(** * dicether/verifier: the game-session verifier, embedded and verified

    The repository holds two revisions of one browser script:

    - [src/index.js], the later revision (module [Index] below);
    - [src/unnamed/part_000], the earlier revision (module [Part000]).

    Both export the same routine [verifyBets], driven by [verifyGameSession].
    The cryptography and the game rules live in the external package
    [@dicether/state-channel]; the verifier only calls it, so it enters the
    development as a record of functions ([StateChannel]) over which every
    definition and theorem is parametrised.

    Modelling conventions.
    - JavaScript numbers that the verifier handles (round ids, game ids,
      amounts in gwei) are integers and are modelled by [Z]; an array length
      is a [nat].
    - Strings (hashes, seeds, signatures, addresses) are [string]; [!==] on
      them is [negb (String.eqb _ _)].
    - [throw Error(msg)] is the left injection of a sum; every thrown error
      is a constructor of [VerifyError] that carries exactly the values the
      message is built from, and [message] renders the text.
    - [bets] is a JavaScript array, a mutable object shared with the caller:
      [verifyBets] returns the contents of that array after the call next to
      its outcome. *)

From Stdlib Require Import ZArith List Ascii String Bool Lia DecimalString
  Permutation.
Import ListNotations.

Local Open Scope Z_scope.

(** ** Data model *)

(** [bet.user], of which the verifier reads [address]. *)
Module User.
Record t := mk { address : string }.
End User.

(** One bet object of the array delivered by [/bets/gameId/<id>].  Only the
    fields the verifier reads are kept.  [contractAddress] is read by the
    earlier revision only. *)
Module Bet.
Record t := mk {
  roundId : Z;
  gameType : Z;
  num : Z;
  value : Z;
  balance : Z;
  serverHash : string;
  userHash : string;
  serverSeed : string;
  userSeed : string;
  resultNum : Z;
  serverSig : string;
  userSig : string;
  gameId : Z;
  user : User.t;
  contractAddress : string
}.
End Bet.

(** The object literal [signedBetData] built in the loop of [verifyBets]: the
    payload handed to [stateChannel.verifySignature]. *)
Module SignedBetData.
Record t := mk {
  roundId : Z;
  gameType : Z;
  num : Z;
  value : Z;
  balance : Z;
  serverHash : string;
  userHash : string;
  gameId : Z
}.
End SignedBetData.

(** The object [getGameData] resolves to.  [balance] is already divided by
    [1e9] there (gwei is the base unit of the bets). *)
Module GameData.
Record t := mk {
  roundId : Z;
  balance : Z;
  serverEndHash : string;
  userEndHash : string;
  regularEnded : bool
}.
End GameData.

(** ** Errors *)

(** Which of the two parties a message talks about. *)
Inductive Side := Server | Player.

(** The errors the two revisions can throw, one constructor per [throw]
    site.  The arguments are the values concatenated into the message. *)
Inductive VerifyError :=
| VerificationNotSupported
    (* "Verification not supported for games below game id 256!" *)
| InvalidNumberOfBets (len : nat) (numBets : Z)
    (* "Invalid number of bets! Expected: " + bets.length + " Got: " + numBets *)
| UndefinedFirstBet
    (* TypeError raised by [firstBet.serverHash] when [bets[0]] is undefined *)
| InvalidFirstBetServerHash
    (* "Invalid first bet serverHash" *)
| InvalidFirstBetUserHash
    (* "Invalid first bet user Hash" *)
| InvalidServerSignature (roundId : Z)
    (* "Invalid server signature for bet with roundId: " + bet.roundId *)
| InvalidPlayerSignature (roundId : Z)
    (* "Invalid player signature for bet with roundId: " + bet.roundId *)
| InvalidUserSeed (roundId : Z)
    (* "Invalid user seed for bet with roundId: " + bet.roundId *)
| InvalidServerSeed (roundId : Z)
    (* "Invalid server seed for bet with roundId: " + bet.roundId *)
| InvalidHashChain
    (* "Invalid hash chain!" *)
| InvalidNumber (resultNum resultNumShouldBe : Z)
    (* "Invalid number " + bet.resultNum + " instead of" + resultNumShouldBe *)
| InvalidBalance (betBalance balance : Z)
    (* "Invalid balance " + bet.balance + " instead of " + balance *)
| InvalidGameSessionBalance (prevBalance balance : Z)
    (* "Invalid game session balance " + prevBalance + " instead of " + balance *).

(** Decimal rendering of an integer, as [+] does when it concatenates a
    number to a string.  This is what JavaScript prints for the integers it
    holds exactly and prints in full, those of magnitude below 1e21; from
    1e21 on JavaScript switches to exponent notation, which this rendering
    does not follow.  The theorems read [message] only at fixed texts and at
    round ids and amounts far below that bound. *)
Definition string_of_Z (z : Z) : string :=
  NilZero.string_of_int (Z.to_int z).

Definition string_of_nat (n : nat) : string :=
  string_of_Z (Z.of_nat n).

(** The text of the thrown error. *)
Definition message (e : VerifyError) : string :=
  match e with
  | VerificationNotSupported =>
      "Verification not supported for games below game id 256!"
  | InvalidNumberOfBets len numBets =>
      "Invalid number of bets! Expected: " ++ string_of_nat len
        ++ " Got: " ++ string_of_Z numBets
  | UndefinedFirstBet =>
      "Cannot read properties of undefined (reading 'serverHash')"
  | InvalidFirstBetServerHash => "Invalid first bet serverHash"
  | InvalidFirstBetUserHash => "Invalid first bet user Hash"
  | InvalidServerSignature r =>
      "Invalid server signature for bet with roundId: " ++ string_of_Z r
  | InvalidPlayerSignature r =>
      "Invalid player signature for bet with roundId: " ++ string_of_Z r
  | InvalidUserSeed r =>
      "Invalid user seed for bet with roundId: " ++ string_of_Z r
  | InvalidServerSeed r =>
      "Invalid server seed for bet with roundId: " ++ string_of_Z r
  | InvalidHashChain => "Invalid hash chain!"
  | InvalidNumber n m =>
      "Invalid number " ++ string_of_Z n ++ " instead of" ++ string_of_Z m
  | InvalidBalance b b' =>
      "Invalid balance " ++ string_of_Z b ++ " instead of " ++ string_of_Z b'
  | InvalidGameSessionBalance p b =>
      "Invalid game session balance " ++ string_of_Z p
        ++ " instead of " ++ string_of_Z b
  end%string.

(** The round id a thrown error names, if its message contains one. *)
Definition namedRound (e : VerifyError) : option Z :=
  match e with
  | InvalidServerSignature r | InvalidPlayerSignature r
  | InvalidUserSeed r | InvalidServerSeed r => Some r
  | _ => None
  end.

(** The side a thrown error names, if its message tells one. *)
Definition namedSide (e : VerifyError) : option Side :=
  match e with
  | InvalidFirstBetServerHash | InvalidServerSignature _
  | InvalidServerSeed _ => Some Server
  | InvalidFirstBetUserHash | InvalidPlayerSignature _
  | InvalidUserSeed _ => Some Player
  | _ => None
  end.

(** A computation that may throw. *)
Definition Exn (A : Type) : Type := VerifyError + A.

(** [if (c) { throw e; } k] *)
Notation "'when' c 'throw' e ;; k" :=
  (if c then inl e else k)
  (at level 10, c at level 9, e at level 9, k at level 200,
   format "'[v' 'when'  c  'throw'  e  ;;  '/' k ']'").

(** Strict inequality [!==] at the three types it is used at. *)
Definition sne_Z (a b : Z) : bool := negb (a =? b).
Definition sne_string (a b : string) : bool := negb (String.eqb a b).

(** [a !== v] where [v] is a [let] variable that is still [undefined]
    ([None]) or holds a string. *)
Definition sne_var (a : string) (v : option string) : bool :=
  match v with
  | Some b => sne_string a b
  | None => true
  end.

(** The three variables the loop of [verifyBets] carries from one bet to the
    next.  [userPrevHash] and [serverPrevHash] are declared without a value,
    hence [None] until the first iteration assigns them. *)
Record LoopState := mkLoop {
  userPrevHash : option string;
  serverPrevHash : option string;
  prevBalance : Z
}.

Definition initLoop : LoopState :=
  {| userPrevHash := None; serverPrevHash := None; prevBalance := 0 |}.

(** [for (let i = 0; i < bets.length; i++) { const bet = bets[i]; ... }]
    from index [i] on: [bets] is what is left of the array from that index,
    [body] is the loop body.  The first throw leaves the loop. *)
Fixpoint forLoop (body : nat -> LoopState -> Bet.t -> Exn LoopState)
    (i : nat) (st : LoopState) (bets : list Bet.t) : Exn LoopState :=
  match bets with
  | [] => inr st
  | bet :: rest =>
      match body i st bet with
      | inl e => inl e
      | inr st' => forLoop body (S i) st' rest
      end
  end.

(** What the caller shows once [verifyBets] has returned. *)
Inductive Alert :=
| BetValidationFailed
    (* alert("Bet Validation failed!") *)
| AllBetsValid (len : nat) (gameId : Z)
    (* alert("All " + bets.length + " bets for game session " + gameId + " are valid!") *).

(** ** The later revision: [src/index.js] *)

Module Index.

(** addresses of the two contracts and of the house signers *)
Definition CONTRACT_ADDRESS_OLD : string :=
  "0xaEc1F783B29Aab2727d7C374Aa55483fe299feFa".
Definition SERVER_ADDRESS_OLD : string :=
  "0xCef260a5Fed7A896BBE07b933B3A5c17aEC094D8".
Definition CONTRACT_ADDRESS : string :=
  "0xa867bF8447eC6f614EA996057e3D769b76a8aa0e".
Definition SERVER_ADDRESS : string :=
  "0x437EC7503dFF1b5F5Ab4Dab4455C45a270629f4d".

Definition GAME_ID_CONTRACT_CHANGED : Z := 5246.

(** we are on the main chain => chain id 1 *)
Definition CHAIN_ID : Z := 1.

(** The four functions of [@dicether/state-channel] this revision calls,
    with the arguments in the order of the calls. *)
Record StateChannel := {
  (* verifySignature(bet, chainId, contractAddress, signature, address) *)
  verifySignature : SignedBetData.t -> Z -> string -> string -> string -> bool;
  keccak : string -> string;
  (* calcResultNumber(gameType, serverSeed, userSeed, num) *)
  calcResultNumber : Z -> string -> string -> Z -> Z;
  (* calcNewBalance(gameType, num, value, serverSeed, userSeed, prevBalance) *)
  calcNewBalance : Z -> Z -> Z -> string -> string -> Z -> Z
}.

Section Verifier.

Variable stateChannel : StateChannel.

(** The object literal built at the top of the loop body. *)
Definition signedBetData (bet : Bet.t) : SignedBetData.t :=
  {| SignedBetData.roundId := Bet.roundId bet;
     SignedBetData.gameType := Bet.gameType bet;
     SignedBetData.num := Bet.num bet;
     SignedBetData.value := Bet.value bet;
     SignedBetData.balance := Bet.balance bet;
     SignedBetData.serverHash := Bet.serverHash bet;
     SignedBetData.userHash := Bet.userHash bet;
     SignedBetData.gameId := Bet.gameId bet |}.

(** The body of [for (let i = 0; i < bets.length; i++)]: the checks on
    [bets[i]], then the assignments to the three loop variables.
    [balance] is the parameter of [verifyBets]; the "Invalid balance"
    message prints it. *)
Definition checkBet (balance : Z) (contractAddress serverAddress : string)
    (i : nat) (st : LoopState) (bet : Bet.t) : Exn LoopState :=
  let userAddress := User.address (Bet.user bet) in
  let signedBetData := signedBetData bet in
  (* First check if player and server signatures are valid *)
  when (negb (verifySignature stateChannel signedBetData CHAIN_ID
                contractAddress (Bet.serverSig bet) serverAddress))
  throw (InvalidServerSignature (Bet.roundId bet)) ;;
  when (negb (verifySignature stateChannel signedBetData CHAIN_ID
                contractAddress (Bet.userSig bet) userAddress))
  throw (InvalidPlayerSignature (Bet.roundId bet)) ;;
  (* Now check if seeds are valid *)
  when (sne_string (keccak stateChannel (Bet.userSeed bet)) (Bet.userHash bet))
  throw (InvalidUserSeed (Bet.roundId bet)) ;;
  when (sne_string (keccak stateChannel (Bet.serverSeed bet)) (Bet.serverHash bet))
  throw (InvalidServerSeed (Bet.roundId bet)) ;;
  (* check if hash chain is valid *)
  when (negb (Nat.eqb i 0)
        && sne_var (keccak stateChannel (Bet.userHash bet)) (userPrevHash st))
  throw InvalidHashChain ;;
  when (negb (Nat.eqb i 0)
        && sne_var (keccak stateChannel (Bet.serverHash bet)) (serverPrevHash st))
  throw InvalidHashChain ;;
  (* check if result number is valid *)
  let resultNumShouldBe :=
    calcResultNumber stateChannel (Bet.gameType bet) (Bet.serverSeed bet)
      (Bet.userSeed bet) (Bet.num bet) in
  when (sne_Z (Bet.resultNum bet) resultNumShouldBe)
  throw (InvalidNumber (Bet.resultNum bet) resultNumShouldBe) ;;
  (* check if bet.balance is valid *)
  when (sne_Z (Bet.balance bet) (prevBalance st))
  throw (InvalidBalance (Bet.balance bet) balance) ;;
  (* calculate balance after bet *)
  inr {| userPrevHash := Some (Bet.userHash bet);
         serverPrevHash := Some (Bet.serverHash bet);
         prevBalance :=
           calcNewBalance stateChannel (Bet.gameType bet) (Bet.num bet)
             (Bet.value bet) (Bet.serverSeed bet) (Bet.userSeed bet)
             (prevBalance st) |}.

(** The loop of [verifyBets]. *)
Definition loop (balance : Z) (contractAddress serverAddress : string)
    : nat -> LoopState -> list Bet.t -> Exn LoopState :=
  forLoop (checkBet balance contractAddress serverAddress).

(** [verifyBets].  The result pairs the contents of the caller's array
    [bets] once the call is over with the outcome: a thrown error, or the
    returned boolean.  [bets.reverse()] reverses the array in place and
    the function goes on with that same array. *)
Definition verifyBets (gameId : Z) (bets : list Bet.t) (roundId balance : Z)
    (serverEndHash userEndHash : string) (regularEnded : bool)
    (contractAddress serverAddress : string) : list Bet.t * Exn bool :=
  let numBets := roundId - (if regularEnded then 1 else 0) in
  if sne_Z (Z.of_nat (List.length bets)) numBets then
    (bets, inl (InvalidNumberOfBets (List.length bets) numBets))
  else if roundId =? 0 then
    (* no bets were placed => nothing to check *)
    (bets, inr true)
  else
    (* reverse so first placed bet is bets[0] *)
    let bets := rev bets in
    (bets,
     match bets with
     | [] => inl UndefinedFirstBet
     | firstBet :: _ =>
         (* check if hash chains are correct *)
         when (sne_string serverEndHash (Bet.serverHash firstBet))
         throw InvalidFirstBetServerHash ;;
         when (sne_string userEndHash (Bet.userHash firstBet))
         throw InvalidFirstBetUserHash ;;
         (* check every bet of the game session *)
         match loop balance contractAddress serverAddress 0 initLoop bets with
         | inl e => inl e
         | inr st =>
             (* check if final balance is valid *)
             when (regularEnded && sne_Z balance (prevBalance st))
             throw (InvalidGameSessionBalance (prevBalance st) balance) ;;
             inr true
         end
     end).

(** The choice of contract and signer at the top of [verifyGameSession]. *)
Definition selectAddresses (gameId : Z) : string * string :=
  if GAME_ID_CONTRACT_CHANGED <=? gameId then
    (CONTRACT_ADDRESS, SERVER_ADDRESS)
  else
    (CONTRACT_ADDRESS_OLD, SERVER_ADDRESS_OLD).

(** [verifyGameSession] once the bets and the game data have been
    fetched: the last [then] callback, with the addresses chosen at the
    top of the function.  The result again pairs the array after the call
    with what happened: an error thrown by [verifyBets], or the alert
    shown. *)
Definition verifyGameSession (gameId : Z) (bets : list Bet.t)
    (gameData : GameData.t) : list Bet.t * Exn Alert :=
  let '(contractAddress, serverAddress) := selectAddresses gameId in
  match verifyBets gameId bets (GameData.roundId gameData)
          (GameData.balance gameData) (GameData.serverEndHash gameData)
          (GameData.userEndHash gameData) (GameData.regularEnded gameData)
          contractAddress serverAddress with
  | (bets, inl e) => (bets, inl e)
  | (bets, inr r) =>
      if negb r then (bets, inr BetValidationFailed)
      else (bets, inr (AllBetsValid (List.length bets) gameId))
  end.

End Verifier.

End Index.

(** ** The earlier revision: [src/unnamed/part_000] *)

Module Part000.

(** addresses of our different contracts *)
Definition CONTRACT_ADDRESS2 : string :=
  "0xbF8B9092e809DE87932B28ffaa00D520b04359aA".
Definition CONTRACT_ADDRESS3 : string :=
  "0x3e07881993c7542a6Da9025550B54331474b21dd".
Definition CONTRACT_ADDRESS4 : string :=
  "0xEB6F4eC38A347110941E86e691c2ca03e271dF3b".

(** address of the house game session signer *)
Definition SERVER_ADDRESS : string :=
  "0xCef260a5Fed7A896BBE07b933B3A5c17aEC094D8".

Definition NEW_EIP_GAME_ID : Z := 572.
Definition OLD_EIP_GAME_ID : Z := 638.

Definition CHAIN_ID : Z := 1.

(** returns the contract address for the given game id. *)
Definition getContractAddress (gameId : Z) : Exn string :=
  if gameId <? 256 then inl VerificationNotSupported
  else if gameId <? 572 then inr CONTRACT_ADDRESS2
  else if gameId <? 638 then inr CONTRACT_ADDRESS3
  else inr CONTRACT_ADDRESS4.

(** return the signature version for the given game id. *)
Definition getSignatureVersion (gameId : Z) : Z :=
  if (gameId <? NEW_EIP_GAME_ID) || (OLD_EIP_GAME_ID <=? gameId) then 1 else 2.

(** The functions of [@dicether/state-channel] as this revision calls
    them: [verifySignature] takes the signature version as a sixth
    argument, [calcResultNumber] takes no [num]. *)
Record StateChannel := {
  (* verifySignature(bet, chainId, contractAddress, signature, address, version) *)
  verifySignature :
    SignedBetData.t -> Z -> string -> string -> string -> Z -> bool;
  keccak : string -> string;
  (* calcResultNumber(gameType, serverSeed, userSeed) *)
  calcResultNumber : Z -> string -> string -> Z;
  (* calcNewBalance(gameType, num, value, serverSeed, userSeed, prevBalance) *)
  calcNewBalance : Z -> Z -> Z -> string -> string -> Z -> Z
}.

Section Verifier.

Variable stateChannel : StateChannel.

Definition signedBetData (bet : Bet.t) : SignedBetData.t :=
  {| SignedBetData.roundId := Bet.roundId bet;
     SignedBetData.gameType := Bet.gameType bet;
     SignedBetData.num := Bet.num bet;
     SignedBetData.value := Bet.value bet;
     SignedBetData.balance := Bet.balance bet;
     SignedBetData.serverHash := Bet.serverHash bet;
     SignedBetData.userHash := Bet.userHash bet;
     SignedBetData.gameId := Bet.gameId bet |}.

(** The loop body.  The contract address is the one the bet itself
    carries; the signer is the constant [SERVER_ADDRESS]. *)
Definition checkBet (balance : Z) (version : Z)
    (i : nat) (st : LoopState) (bet : Bet.t) : Exn LoopState :=
  let contractAddress := Bet.contractAddress bet in
  let userAddress := User.address (Bet.user bet) in
  let signedBetData := signedBetData bet in
  when (negb (verifySignature stateChannel signedBetData CHAIN_ID
                contractAddress (Bet.serverSig bet) SERVER_ADDRESS version))
  throw (InvalidServerSignature (Bet.roundId bet)) ;;
  when (negb (verifySignature stateChannel signedBetData CHAIN_ID
                contractAddress (Bet.userSig bet) userAddress version))
  throw (InvalidPlayerSignature (Bet.roundId bet)) ;;
  when (sne_string (keccak stateChannel (Bet.userSeed bet)) (Bet.userHash bet))
  throw (InvalidUserSeed (Bet.roundId bet)) ;;
  when (sne_string (keccak stateChannel (Bet.serverSeed bet)) (Bet.serverHash bet))
  throw (InvalidServerSeed (Bet.roundId bet)) ;;
  when (negb (Nat.eqb i 0)
        && sne_var (keccak stateChannel (Bet.userHash bet)) (userPrevHash st))
  throw InvalidHashChain ;;
  when (negb (Nat.eqb i 0)
        && sne_var (keccak stateChannel (Bet.serverHash bet)) (serverPrevHash st))
  throw InvalidHashChain ;;
  let resultNumShouldBe :=
    calcResultNumber stateChannel (Bet.gameType bet) (Bet.serverSeed bet)
      (Bet.userSeed bet) in
  when (sne_Z (Bet.resultNum bet) resultNumShouldBe)
  throw (InvalidNumber (Bet.resultNum bet) resultNumShouldBe) ;;
  when (sne_Z (Bet.balance bet) (prevBalance st))
  throw (InvalidBalance (Bet.balance bet) balance) ;;
  inr {| userPrevHash := Some (Bet.userHash bet);
         serverPrevHash := Some (Bet.serverHash bet);
         prevBalance :=
           calcNewBalance stateChannel (Bet.gameType bet) (Bet.num bet)
             (Bet.value bet) (Bet.serverSeed bet) (Bet.userSeed bet)
             (prevBalance st) |}.

Definition loop (balance : Z) (version : Z)
    : nat -> LoopState -> list Bet.t -> Exn LoopState :=
  forLoop (checkBet balance version).

(** [verifyBets] of this revision: no shortcut for a session without
    bets, and the final balance is compared whatever [regularEnded] is. *)
Definition verifyBets (gameId : Z) (bets : list Bet.t) (roundId balance : Z)
    (serverEndHash userEndHash : string) (regularEnded : bool)
    : list Bet.t * Exn bool :=
  let version := getSignatureVersion gameId in
  let numBets := roundId - (if regularEnded then 1 else 0) in
  if sne_Z (Z.of_nat (List.length bets)) numBets then
    (bets, inl (InvalidNumberOfBets (List.length bets) numBets))
  else
    (* reverse so first placed bet is bets[0] *)
    let bets := rev bets in
    (bets,
     match bets with
     | [] => inl UndefinedFirstBet
     | firstBet :: _ =>
         when (sne_string serverEndHash (Bet.serverHash firstBet))
         throw InvalidFirstBetServerHash ;;
         when (sne_string userEndHash (Bet.userHash firstBet))
         throw InvalidFirstBetUserHash ;;
         match loop balance version 0 initLoop bets with
         | inl e => inl e
         | inr st =>
             when (sne_Z balance (prevBalance st))
             throw (InvalidGameSessionBalance (prevBalance st) balance) ;;
             inr true
         end
     end).

(** [verifyGameSession] once the data is fetched.  The contract object is
    built first, from [getContractAddress(gameId)], which may throw. *)
Definition verifyGameSession (gameId : Z) (bets : list Bet.t)
    (gameData : GameData.t) : list Bet.t * Exn Alert :=
  match getContractAddress gameId with
  | inl e => (bets, inl e)
  | inr _ =>
      match verifyBets gameId bets (GameData.roundId gameData)
              (GameData.balance gameData) (GameData.serverEndHash gameData)
              (GameData.userEndHash gameData) (GameData.regularEnded gameData)
      with
      | (bets, inl e) => (bets, inl e)
      | (bets, inr r) =>
          if negb r then (bets, inr BetValidationFailed)
          else (bets, inr (AllBetsValid (List.length bets) gameId))
      end
  end.

End Verifier.

End Part000.

(** ** A small concrete instance of the external package

    Used to run the verifier on explicit sessions.  The "hash" prepends a
    mark, a signature is accepted when it is the signer's address followed by
    the two hashes of the payload, the outcome of a bet is its [num] (the
    constant 7 where [num] is not passed), and a bet adds its [value] to the
    balance. *)

Module Toy.

Definition keccak (s : string) : string := String "#"%char s.

Definition sign (address : string) (data : SignedBetData.t) : string :=
  (address ++ ":" ++ SignedBetData.serverHash data
           ++ ":" ++ SignedBetData.userHash data)%string.

Definition verifySignature (data : SignedBetData.t) (chainId : Z)
    (contractAddress signature address : string) : bool :=
  String.eqb signature (sign address data).

Definition index : Index.StateChannel :=
  {| Index.verifySignature := verifySignature;
     Index.keccak := keccak;
     Index.calcResultNumber := fun gameType serverSeed userSeed num => num;
     Index.calcNewBalance :=
       fun gameType num value serverSeed userSeed prevBalance =>
         prevBalance + value |}.

Definition part000 : Part000.StateChannel :=
  {| Part000.verifySignature :=
       fun data chainId contractAddress signature address version =>
         verifySignature data chainId contractAddress signature address;
     Part000.keccak := keccak;
     Part000.calcResultNumber := fun gameType serverSeed userSeed => 7;
     Part000.calcNewBalance :=
       fun gameType num value serverSeed userSeed prevBalance =>
         prevBalance + value |}.

Definition alice : User.t := {| User.address := "0xA11CE" |}.

(** A bet of game 6000 signed by both parties over its own payload. *)
Definition mkBet (serverAddress : string) (roundId num value balance : Z)
    (serverHash userHash serverSeed userSeed : string) (resultNum : Z)
    : Bet.t :=
  let data :=
    {| SignedBetData.roundId := roundId; SignedBetData.gameType := 1;
       SignedBetData.num := num; SignedBetData.value := value;
       SignedBetData.balance := balance;
       SignedBetData.serverHash := serverHash;
       SignedBetData.userHash := userHash;
       SignedBetData.gameId := 6000 |} in
  {| Bet.roundId := roundId; Bet.gameType := 1; Bet.num := num;
     Bet.value := value; Bet.balance := balance;
     Bet.serverHash := serverHash; Bet.userHash := userHash;
     Bet.serverSeed := serverSeed; Bet.userSeed := userSeed;
     Bet.resultNum := resultNum;
     Bet.serverSig := sign serverAddress data;
     Bet.userSig := sign (User.address alice) data;
     Bet.gameId := 6000; Bet.user := alice;
     Bet.contractAddress := Index.CONTRACT_ADDRESS |}.

(** Three consistent rounds: both chains descend from the seeds ["s"] and
    ["u"], the balances replay to 400. *)
Definition bet1 : Bet.t :=
  mkBet Index.SERVER_ADDRESS 1 7 100 0 "###s" "###u" "##s" "##u" 7.
Definition bet2 : Bet.t :=
  mkBet Index.SERVER_ADDRESS 2 7 150 100 "##s" "##u" "#s" "#u" 7.
Definition bet3 : Bet.t :=
  mkBet Index.SERVER_ADDRESS 3 7 150 250 "#s" "#u" "s" "u" 7.

(** The array as the API delivers it: newest first. *)
Definition bets : list Bet.t := [bet3; bet2; bet1].



(** The same three rounds as the earlier revision sees them: signed by
    its server address. *)
Definition oldBets : list Bet.t :=
  [ mkBet Part000.SERVER_ADDRESS 3 7 150 250 "#s" "#u" "s" "u" 7;
    mkBet Part000.SERVER_ADDRESS 2 7 150 100 "##s" "##u" "#s" "#u" 7;
    mkBet Part000.SERVER_ADDRESS 1 7 100 0 "###s" "###u" "##s" "##u" 7 ].

End Toy.

(** ** The properties of a valid session, in the words of the specification

    These definitions do not look at the verifier; the theorems below relate
    them to it.  [chron] is always the bet sequence in chronological order,
    earliest round first. *)

Module Session.

(** Expected record count: the final round count minus one when the
    session ended normally, the final round count otherwise. *)
Definition expectedCount (finalRoundCount : Z) (endedNormally : bool) : Z :=
  if endedNormally then finalRoundCount - 1 else finalRoundCount.

Section HashChain.

Variable hash : string -> string.

(** Both revealed seeds hash to the declared commitments. *)
Definition seedsCommitted (bet : Bet.t) : Prop :=
  hash (Bet.serverSeed bet) = Bet.serverHash bet
  /\ hash (Bet.userSeed bet) = Bet.userHash bet.

(** On both sides, the hash of [cur]'s declared hash is [prev]'s
    declared hash. *)
Definition linked (prev cur : Bet.t) : Prop :=
  hash (Bet.serverHash cur) = Bet.serverHash prev
  /\ hash (Bet.userHash cur) = Bet.userHash prev.

(** The earliest record carries the two published chain heads. *)
Definition anchored (serverChainHead userChainHead : string)
    (chron : list Bet.t) : Prop :=
  forall first, nth_error chron 0 = Some first ->
    Bet.serverHash first = serverChainHead
    /\ Bet.userHash first = userChainHead.

(** Every later record is linked to the one immediately before it. *)
Definition chained (chron : list Bet.t) : Prop :=
  forall i prev cur,
    nth_error chron i = Some prev -> nth_error chron (S i) = Some cur ->
    linked prev cur.

Definition hashChainValid (serverChainHead userChainHead : string)
    (chron : list Bet.t) : Prop :=
  Forall seedsCommitted chron
  /\ anchored serverChainHead userChainHead chron
  /\ chained chron.

End HashChain.

Section Ledger.

(* newBalance(gameType, num, value, serverSeed, userSeed, priorBalance) *)
Variable newBalance : Z -> Z -> Z -> string -> string -> Z -> Z.

Definition advance (running : Z) (bet : Bet.t) : Z :=
  newBalance (Bet.gameType bet) (Bet.num bet) (Bet.value bet)
    (Bet.serverSeed bet) (Bet.userSeed bet) running.

(** The running balance after replaying [chron] from [start]. *)
Definition replayFrom (start : Z) (chron : list Bet.t) : Z :=
  fold_left advance chron start.

(** The running balance after replaying [chron] from zero. *)
Definition replay (chron : list Bet.t) : Z := replayFrom 0 chron.

(** Every record declares, as its pre-round balance, the running balance
    of the records before it. *)
Definition balancesReplay (chron : list Bet.t) : Prop :=
  forall pre bet post, chron = pre ++ bet :: post ->
    Bet.balance bet = replay pre.

End Ledger.

(** An era: the session ids [minSessionId <= id < maxSessionId] (no upper
    bound when [maxSessionId] is [None]; no lower bound when
    [minSessionId] is [None]) and what applies to them. *)
Record Era := mkEra {
  minSessionId : option Z;
  maxSessionId : option Z;
  contractIdentity : string;
  serverIdentity : string;
  signatureVersion : option Z
}.

Definition inEra (sessionId : Z) (era : Era) : Prop :=
  match minSessionId era with Some lo => lo <= sessionId | None => True end
  /\ match maxSessionId era with Some hi => sessionId < hi | None => True end.

(** Ordered thresholds without gap or overlap: each era ends where the
    next one starts, and the last one has no upper bound. *)
Fixpoint contiguous (eras : list Era) : Prop :=
  match eras with
  | [] => True
  | era :: rest =>
      match rest with
      | [] => maxSessionId era = None
      | next :: _ =>
          maxSessionId era <> None
          /\ maxSessionId era = minSessionId next
          /\ contiguous rest
      end
  end.

(** [sessionId] lies in exactly one era of the table, namely [era]. *)
Definition resolvesTo (eras : list Era) (sessionId : Z) (era : Era) : Prop :=
  In era eras /\ inEra sessionId era
  /\ forall era', In era' eras -> inEra sessionId era' -> era' = era.

End Session.

(** The era tables the two revisions implement with their comparisons. *)

Definition part000Eras : list Session.Era :=
  [ Session.mkEra (Some 256) (Some 572)
      Part000.CONTRACT_ADDRESS2 Part000.SERVER_ADDRESS (Some 1);
    Session.mkEra (Some 572) (Some 638)
      Part000.CONTRACT_ADDRESS3 Part000.SERVER_ADDRESS (Some 2);
    Session.mkEra (Some 638) None
      Part000.CONTRACT_ADDRESS4 Part000.SERVER_ADDRESS (Some 1) ].

(** The later revision passes no signature version to [verifySignature]. *)
Definition indexEras : list Session.Era :=
  [ Session.mkEra None (Some 5246)
      Index.CONTRACT_ADDRESS_OLD Index.SERVER_ADDRESS_OLD None;
    Session.mkEra (Some 5246) None
      Index.CONTRACT_ADDRESS Index.SERVER_ADDRESS None ].

(** What an error thrown inside the loop of [Index.verifyBets] says about the
    bet [bet] at index [i] it was thrown for, [st] being the loop variables
    on entry to that iteration. *)
Definition culprit (sc : Index.StateChannel)
    (contractAddress serverAddress : string)
    (i : nat) (st : LoopState) (bet : Bet.t) (e : VerifyError) : Prop :=
  match e with
  | InvalidServerSignature r =>
      r = Bet.roundId bet
      /\ Index.verifySignature sc (Index.signedBetData bet) Index.CHAIN_ID
           contractAddress (Bet.serverSig bet) serverAddress = false
  | InvalidPlayerSignature r =>
      r = Bet.roundId bet
      /\ Index.verifySignature sc (Index.signedBetData bet) Index.CHAIN_ID
           contractAddress (Bet.userSig bet) (User.address (Bet.user bet))
         = false
  | InvalidUserSeed r =>
      r = Bet.roundId bet
      /\ Index.keccak sc (Bet.userSeed bet) <> Bet.userHash bet
  | InvalidServerSeed r =>
      r = Bet.roundId bet
      /\ Index.keccak sc (Bet.serverSeed bet) <> Bet.serverHash bet
  | InvalidHashChain =>
      i <> 0%nat
      /\ (userPrevHash st <> Some (Index.keccak sc (Bet.userHash bet))
          \/ serverPrevHash st <> Some (Index.keccak sc (Bet.serverHash bet)))
  | InvalidNumber n m =>
      n = Bet.resultNum bet
      /\ m = Index.calcResultNumber sc (Bet.gameType bet) (Bet.serverSeed bet)
               (Bet.userSeed bet) (Bet.num bet)
      /\ n <> m
  | InvalidBalance b _ =>
      b = Bet.balance bet /\ b <> prevBalance st
  | _ => False
  end.


(** ** The ledger reader, the session driver and the page

    The rest of the two scripts: [getGameData], the whole of
    [verifyGameSession] and the click listener of [verifyButton].  What they
    take from outside enters as data:
    - a contract object is the two event logs [getPastEvents] reads, as
      functions of the [gameId] filter;
    - the browser is whether [window.web3] is defined, the network id that
      [web3.eth.net.getId()] resolves to, the contract object built for an
      address, and the bets [axios.get] delivers for a game id;
    - [Number.parseInt] on the [returnValues] of an event (decimal strings of
      ABI integers) and the floating-point division [/ 1e9] are the two
      functions of [Numbers].
    Failures of the transport itself are not modelled. *)

(** [returnValues] of a [LogGameCreated] event. *)
Module LogGameCreated.
Record t := mk {
  gameId : string;
  playerEndHash : string;
  serverEndHash : string
}.
End LogGameCreated.

(** [returnValues] of a [LogGameEnded] event. *)
Module LogGameEnded.
Record t := mk {
  gameId : string;
  roundId : string;
  balance : string;
  reason : string
}.
End LogGameEnded.

(** [new web3.eth.Contract(GameChannelAbi, address)], as far as
    [getPastEvents(name, {filter: {gameId: gameId}, ...})] reads it. *)
Record Contract := mkContract {
  pastLogGameCreated : Z -> list LogGameCreated.t;
  pastLogGameEnded : Z -> list LogGameEnded.t
}.

Record Numbers := mkNumbers {
  (* Number.parseInt(s) *)
  parseInt : string -> Z;
  (* x / 1e9 *)
  divide1e9 : Z -> Z
}.

(** The two rejections of [getGameData]. *)
Inductive LedgerError :=
| CouldNotReadGameCreated
    (* "Could not read game info (LogGameCreatedEvent)!" *)
| CouldNotReadGameEnded
    (* "Could not read game info (LogGameEndedEvent)!" *).

(** loads game date information from the smart contract.  The same text in
    both revisions.  [events[0]] is read only when [len !== 1] is false. *)
Definition getGameData (numbers : Numbers) (contract : Contract) (gameId : Z)
    : LedgerError + GameData.t :=
  match pastLogGameCreated contract gameId with
  | [event] =>
      if sne_Z (parseInt numbers (LogGameCreated.gameId event)) gameId then
        inl CouldNotReadGameCreated
      else
        let userEndHash := LogGameCreated.playerEndHash event in
        let serverEndHash := LogGameCreated.serverEndHash event in
        match pastLogGameEnded contract gameId with
        | [event] =>
            if sne_Z (parseInt numbers (LogGameEnded.gameId event)) gameId then
              inl CouldNotReadGameEnded
            else
              let returnValues := event in
              inr {| GameData.roundId :=
                       parseInt numbers (LogGameEnded.roundId returnValues);
                     GameData.balance :=
                       divide1e9 numbers
                         (parseInt numbers (LogGameEnded.balance returnValues));
                     GameData.serverEndHash := serverEndHash;
                     GameData.userEndHash := userEndHash;
                     GameData.regularEnded :=
                       parseInt numbers (LogGameEnded.reason returnValues) =? 0
                  |}
        | _ => inl CouldNotReadGameEnded
        end
  | _ => inl CouldNotReadGameCreated
  end.

Record Browser := mkBrowser {
  (* window.web3 !== undefined *)
  hasWeb3 : bool;
  (* Number.parseInt(network), network from web3.eth.net.getId() *)
  network : Z;
  (* new web3.eth.Contract(GameChannelAbi, address) *)
  contractAt : string -> Contract;
  (* reponse.data.bets of axios.get("/bets/gameId/" + gameId) *)
  betsOf : Z -> list Bet.t
}.

(** Everything [verifyGameSession] can fail with. *)
Inductive SessionError :=
| NeedWeb3
    (* "You need a web3 enabled browser!" *)
| NeedMainNetwork
    (* "You need to use the Main Network" *)
| LedgerFailed (e : LedgerError)
| VerifyFailed (e : VerifyError).

(** How a call of [verifyGameSession] ends: it throws before it returns its
    promise, or the promise is rejected, or it is fulfilled after the alert
    [a] was shown. *)
Inductive Completion :=
| Thrown (e : SessionError)
| Rejected (e : SessionError)
| Fulfilled (a : Alert).

(** What the page has shown with [alert]. *)
Inductive Notice :=
| CouldNotParseGameId
    (* "Could not parse gameId" *)
| CouldNotVerify (gameId : Z) (e : SessionError)
    (* "Could not verify game session with id: " + gameId + ": " + error *)
| Verdict (a : Alert).

(** [style.display] of the spinner. *)
Inductive Display := InlineBlock | DisplayNone.

(** The page once the click is dealt with: the spinner and the alerts shown
    so far, oldest first. *)
Record Page := mkPage {
  spinner : Display;
  alerts : list Notice
}.

Definition showSpinner (page : Page) : Page :=
  {| spinner := InlineBlock; alerts := alerts page |}.

Definition hideSpinner (page : Page) : Page :=
  {| spinner := DisplayNone; alerts := alerts page |}.

Definition alert (notice : Notice) (page : Page) : Page :=
  {| spinner := spinner page; alerts := alerts page ++ [notice] |}.

(** The click listener, given how [verifyGameSession] completes.  [input] is
    [Number.parseInt] of the text field, [None] when it is [NaN]. *)
Definition clickListener (verifyGameSession : Z -> Completion)
    (input : option Z) (page : Page) : Page :=
  let page := showSpinner page in
  match input with
  | None => alert CouldNotParseGameId page
  | Some gameId =>
      match verifyGameSession gameId with
      | Fulfilled a => hideSpinner (alert (Verdict a) page)
      | Rejected error => hideSpinner (alert (CouldNotVerify gameId error) page)
      | Thrown error => hideSpinner (alert (CouldNotVerify gameId error) page)
      end
  end.

(** The later revision, from the click to the alert. *)
Module IndexPage.

Section Page.

Variable stateChannel : Index.StateChannel.
Variable numbers : Numbers.
Variable browser : Browser.

(** verify the game session for the given gameId *)
Definition verifyGameSession (gameId : Z) : Completion :=
  (* check if web3 is available *)
  if negb (hasWeb3 browser) then Thrown NeedWeb3 else
  let '(contractAddress, serverAddress) := Index.selectAddresses gameId in
  (* initialize web3 and the contract *)
  let contract := contractAt browser contractAddress in
  (* verify bets for the given game id *)
  if sne_Z (network browser) Index.CHAIN_ID then Rejected NeedMainNetwork else
  let bets := betsOf browser gameId in
  match getGameData numbers contract gameId with
  | inl e => Rejected (LedgerFailed e)
  | inr gameData =>
      match snd (Index.verifyGameSession stateChannel gameId bets gameData) with
      | inl e => Rejected (VerifyFailed e)
      | inr a => Fulfilled a
      end
  end.

Definition onClick : option Z -> Page -> Page :=
  clickListener verifyGameSession.

End Page.

End IndexPage.

(** The earlier revision, from the click to the alert.  The contract object
    is built from [getContractAddress(gameId)] before the promise chain
    starts, so an unsupported game id is thrown, not rejected. *)
Module Part000Page.

Section Page.

Variable stateChannel : Part000.StateChannel.
Variable numbers : Numbers.
Variable browser : Browser.

Definition verifyGameSession (gameId : Z) : Completion :=
  if negb (hasWeb3 browser) then Thrown NeedWeb3 else
  match Part000.getContractAddress gameId with
  | inl e => Thrown (VerifyFailed e)
  | inr contractAddress =>
      let contract := contractAt browser contractAddress in
      if sne_Z (network browser) Part000.CHAIN_ID then
        Rejected NeedMainNetwork
      else
        let bets := betsOf browser gameId in
        match getGameData numbers contract gameId with
        | inl e => Rejected (LedgerFailed e)
        | inr gameData =>
            match snd (Part000.verifyGameSession stateChannel gameId bets
                         gameData) with
            | inl e => Rejected (VerifyFailed e)
            | inr a => Fulfilled a
            end
        end
  end.

Definition onClick : option Z -> Page -> Page :=
  clickListener verifyGameSession.

End Page.

End Part000Page.

(** A ledger and a browser for the three-round session of [Toy]. *)
Module ToyPage.

(** The conversions on the values this ledger holds: decimal strings, and
    amounts in wei that are whole multiples of 1e9 small enough for the
    double division to be exact, on which [/ 1e9] is the integer quotient.
    On other amounts the script computes a fraction, which no function to
    [Z] renders; this instance is not meant for them. *)
Definition numbers : Numbers :=
  {| parseInt :=
       fun s => match NilZero.int_of_string s with
                | Some i => Z.of_int i
                | None => 0
                end;
     divide1e9 := fun x => x / 1000000000 |}.

(** Game 6000 was created once and ended once, regularly, after round 4,
    with 400 gwei. *)
Definition contract : Contract :=
  {| pastLogGameCreated := fun gameId =>
       [LogGameCreated.mk "6000" "###u" "###s"];
     pastLogGameEnded := fun gameId =>
       [LogGameEnded.mk "6000" "4" "400000000000" "0"] |}.

Definition browser : Browser :=
  {| hasWeb3 := true; network := 1;
     contractAt := fun address => contract;
     betsOf := fun gameId => Toy.bets |}.

(** The same ledger with the end of the game logged twice. *)
Definition endedTwice : Contract :=
  {| pastLogGameCreated := pastLogGameCreated contract;
     pastLogGameEnded := fun gameId =>
       pastLogGameEnded contract gameId ++ pastLogGameEnded contract gameId |}.

Definition blank : Page := {| spinner := DisplayNone; alerts := [] |}.

End ToyPage.

(** The whole of a valid session as [Index.verifyBets] sees it: hash chain,
    signatures, outcomes and ledger on the chronological sequence. *)
Definition indexSessionValid (sc : Index.StateChannel) (balance : Z)
    (serverEndHash userEndHash : string) (regularEnded : bool)
    (contractAddress serverAddress : string) (chron : list Bet.t) : Prop :=
  Session.hashChainValid (Index.keccak sc) serverEndHash userEndHash chron
  /\ Forall (fun bet =>
               Index.verifySignature sc (Index.signedBetData bet)
                 Index.CHAIN_ID contractAddress (Bet.serverSig bet)
                 serverAddress = true
               /\ Index.verifySignature sc (Index.signedBetData bet)
                    Index.CHAIN_ID contractAddress (Bet.userSig bet)
                    (User.address (Bet.user bet)) = true
               /\ Bet.resultNum bet =
                  Index.calcResultNumber sc (Bet.gameType bet)
                    (Bet.serverSeed bet) (Bet.userSeed bet) (Bet.num bet))
       chron
  /\ Session.balancesReplay (Index.calcNewBalance sc) chron
  /\ (regularEnded = true ->
      balance = Session.replay (Index.calcNewBalance sc) chron).

(** The same for [Part000.verifyBets]: signatures under the contract address
    each bet carries and the one server address, the outcome without [num],
    and the settled balance compared in every case. *)
Definition part000SessionValid (sc : Part000.StateChannel) (balance : Z)
    (serverEndHash userEndHash : string) (version : Z)
    (chron : list Bet.t) : Prop :=
  Session.hashChainValid (Part000.keccak sc) serverEndHash userEndHash chron
  /\ Forall (fun bet =>
               Part000.verifySignature sc (Part000.signedBetData bet)
                 Part000.CHAIN_ID (Bet.contractAddress bet)
                 (Bet.serverSig bet) Part000.SERVER_ADDRESS version = true
               /\ Part000.verifySignature sc (Part000.signedBetData bet)
                    Part000.CHAIN_ID (Bet.contractAddress bet)
                    (Bet.userSig bet) (User.address (Bet.user bet)) version
                  = true
               /\ Bet.resultNum bet =
                  Part000.calcResultNumber sc (Bet.gameType bet)
                    (Bet.serverSeed bet) (Bet.userSeed bet))
       chron
  /\ Session.balancesReplay (Part000.calcNewBalance sc) chron
  /\ balance = Session.replay (Part000.calcNewBalance sc) chron.

(** The game data [getGameData] resolves to, out of the one creation event
    and the one end event. *)
Definition gameDataOf (numbers : Numbers) (created : LogGameCreated.t)
    (ended : LogGameEnded.t) : GameData.t :=
  {| GameData.roundId := parseInt numbers (LogGameEnded.roundId ended);
     GameData.balance :=
       divide1e9 numbers (parseInt numbers (LogGameEnded.balance ended));
     GameData.serverEndHash := LogGameCreated.serverEndHash created;
     GameData.userEndHash := LogGameCreated.playerEndHash created;
     GameData.regularEnded :=
       parseInt numbers (LogGameEnded.reason ended) =? 0 |}.

(** The contract logged the creation of the game exactly once, under the
    game id asked for. *)
Definition createdOnce (numbers : Numbers) (contract : Contract) (gameId : Z)
    (created : LogGameCreated.t) : Prop :=
  pastLogGameCreated contract gameId = [created]
  /\ parseInt numbers (LogGameCreated.gameId created) = gameId.

(** The contract logged the end of the game exactly once, under the game id
    asked for. *)
Definition endedOnce (numbers : Numbers) (contract : Contract) (gameId : Z)
    (ended : LogGameEnded.t) : Prop :=
  pastLogGameEnded contract gameId = [ended]
  /\ parseInt numbers (LogGameEnded.gameId ended) = gameId.

(** A degenerate instance of the external package, whose hash is the
    identity and which accepts every signature: the only kind of hash under
    which two adjacent bets can change places unnoticed. *)
Module Degenerate.

Definition index : Index.StateChannel :=
  {| Index.verifySignature :=
       fun data chainId contractAddress signature address => true;
     Index.keccak := fun s => s;
     Index.calcResultNumber := fun gameType serverSeed userSeed num => num;
     Index.calcNewBalance :=
       fun gameType num value serverSeed userSeed prevBalance => prevBalance |}.

(** A bet whose hashes and seeds are all ["h"], of balance 0. *)
Definition bet (roundId : Z) : Bet.t :=
  {| Bet.roundId := roundId; Bet.gameType := 1; Bet.num := 7;
     Bet.value := 0; Bet.balance := 0;
     Bet.serverHash := "h"; Bet.userHash := "h";
     Bet.serverSeed := "h"; Bet.userSeed := "h";
     Bet.resultNum := 7; Bet.serverSig := ""; Bet.userSig := "";
     Bet.gameId := 6000; Bet.user := Toy.alice;
     Bet.contractAddress := Index.CONTRACT_ADDRESS |}.

End Degenerate.

(** * Theorems *)

(** ** Strict inequality *)

Lemma sne_Z_false (a b : Z) : sne_Z a b = false <-> a = b.
Proof. unfold sne_Z. rewrite negb_false_iff. apply Z.eqb_eq. Qed.

Lemma sne_Z_true (a b : Z) : sne_Z a b = true <-> a <> b.
Proof. unfold sne_Z. rewrite negb_true_iff. apply Z.eqb_neq. Qed.

Lemma sne_string_false (a b : string) : sne_string a b = false <-> a = b.
Proof. unfold sne_string. rewrite negb_false_iff. apply String.eqb_eq. Qed.

Lemma sne_string_true (a b : string) : sne_string a b = true <-> a <> b.
Proof. unfold sne_string. rewrite negb_true_iff. apply String.eqb_neq. Qed.

Lemma sne_var_false (a : string) (v : option string) :
  sne_var a v = false <-> v = Some a.
Proof.
  destruct v as [b|]; simpl.
  - rewrite sne_string_false. split; [intros ->; reflexivity | congruence].
  - split; discriminate.
Qed.

Lemma sne_var_true (a : string) (v : option string) :
  sne_var a v = true <-> v <> Some a.
Proof.
  destruct (sne_var a v) eqn:E.
  - split; [intros _ H | reflexivity].
    apply sne_var_false in H. congruence.
  - apply sne_var_false in E. split; [discriminate | contradiction].
Qed.

(** ** The loop *)

Section ForLoop.

Variable body : nat -> LoopState -> Bet.t -> Exn LoopState.

Lemma forLoop_app (l1 l2 : list Bet.t) : forall i st,
  forLoop body i st (l1 ++ l2) =
  match forLoop body i st l1 with
  | inl e => inl e
  | inr st1 => forLoop body (i + List.length l1) st1 l2
  end.
Proof.
  induction l1 as [|bet l1 IH]; intros i st; simpl.
  - now rewrite Nat.add_0_r.
  - destruct (body i st bet) as [e|st']; [reflexivity|].
    rewrite IH. now rewrite Nat.add_succ_r.
Qed.

(** A throwing loop threw at its first failing iteration: every bet
    before it went through the whole body. *)
Lemma forLoop_inl_split (l : list Bet.t) : forall i st e,
  forLoop body i st l = inl e ->
  exists pre bet post st1,
    l = pre ++ bet :: post
    /\ forLoop body i st pre = inr st1
    /\ body (i + List.length pre)%nat st1 bet = inl e.
Proof.
  induction l as [|bet l IH]; intros i st e H; simpl in H; [discriminate|].
  destruct (body i st bet) as [e'|st'] eqn:E.
  - exists [], bet, l, st. simpl. rewrite Nat.add_0_r.
    repeat split. congruence.
  - destruct (IH _ _ _ H) as (pre & b & post & st1 & -> & Hpre & Hb).
    exists (bet :: pre), b, post, st1. simpl. rewrite E.
    rewrite Nat.add_succ_r. auto.
Qed.

(** A loop that ran to its end ran every iteration to its end. *)
Lemma forLoop_inr_split (pre : list Bet.t) bet post i st st' :
  forLoop body i st (pre ++ bet :: post) = inr st' ->
  exists st1 st2,
    forLoop body i st pre = inr st1
    /\ body (i + List.length pre)%nat st1 bet = inr st2
    /\ forLoop body (S (i + List.length pre)) st2 post = inr st'.
Proof.
  rewrite forLoop_app. destruct (forLoop body i st pre) as [e|st1];
    [discriminate|]. simpl.
  destruct (body _ st1 bet) as [e|st2] eqn:E; [discriminate|].
  intros H. exists st1, st2. auto.
Qed.

End ForLoop.

(** Turns the boolean guards of the program into propositions. *)
Ltac guards :=
  repeat match goal with
  | H : negb _ = true |- _ => apply negb_true_iff in H
  | H : negb _ = false |- _ => apply negb_false_iff in H
  | H : _ && _ = true |- _ => apply andb_true_iff in H; destruct H
  | H : _ && _ = false |- _ => apply andb_false_iff in H
  | H : sne_Z _ _ = false |- _ => apply sne_Z_false in H
  | H : sne_Z _ _ = true |- _ => apply sne_Z_true in H
  | H : sne_string _ _ = false |- _ => apply sne_string_false in H
  | H : sne_string _ _ = true |- _ => apply sne_string_true in H
  | H : sne_var _ _ = false |- _ => apply sne_var_false in H
  | H : sne_var _ _ = true |- _ => apply sne_var_true in H
  | H : Nat.eqb _ _ = true |- _ => apply Nat.eqb_eq in H
  | H : Nat.eqb _ _ = false |- _ => apply Nat.eqb_neq in H
  end.

(** ** The later revision: what one iteration and one run establish *)

Section IndexFacts.

Variable sc : Index.StateChannel.

Local Abbreviation keccak := (Index.keccak sc).
Local Abbreviation serverSigOk ca sa bet :=
  (Index.verifySignature sc (Index.signedBetData bet) Index.CHAIN_ID
     ca (Bet.serverSig bet) sa = true).
Local Abbreviation userSigOk ca bet :=
  (Index.verifySignature sc (Index.signedBetData bet) Index.CHAIN_ID
     ca (Bet.userSig bet) (User.address (Bet.user bet)) = true).
Local Abbreviation resultOk bet :=
  (Bet.resultNum bet =
   Index.calcResultNumber sc (Bet.gameType bet) (Bet.serverSeed bet)
     (Bet.userSeed bet) (Bet.num bet)).
Local Abbreviation next st bet :=
  {| userPrevHash := Some (Bet.userHash bet);
     serverPrevHash := Some (Bet.serverHash bet);
     prevBalance :=
       Session.advance (Index.calcNewBalance sc) (prevBalance st) bet |}.

(** Case analysis on the guards of the loop body, in program order. *)
Ltac body_cases :=
  unfold Index.checkBet;
  repeat match goal with
  | |- context [if ?c then _ else _] =>
      let E := fresh "E" in destruct c eqn:E
  end.

(** An iteration that does not throw has passed every check of the body
    and leaves the loop variables as the three assignments set them. *)
Lemma checkBet_inr balance ca sa i st bet st' :
  Index.checkBet sc balance ca sa i st bet = inr st' ->
  serverSigOk ca sa bet /\ userSigOk ca bet
  /\ Session.seedsCommitted keccak bet
  /\ (i <> 0%nat ->
      userPrevHash st = Some (keccak (Bet.userHash bet))
      /\ serverPrevHash st = Some (keccak (Bet.serverHash bet)))
  /\ resultOk bet
  /\ Bet.balance bet = prevBalance st
  /\ st' = next st bet.
Proof.
  body_cases; intros H; try discriminate; guards.
  injection H as <-. unfold Session.seedsCommitted.
  assert (Hlink : i <> 0%nat ->
            userPrevHash st = Some (keccak (Bet.userHash bet))
            /\ serverPrevHash st = Some (keccak (Bet.serverHash bet))).
  { intros Hi. split.
    - destruct E3 as [E3|E3]; guards; [contradiction | assumption].
    - destruct E4 as [E4|E4]; guards; [contradiction | assumption]. }
  repeat split; auto; apply Hlink; assumption.
Qed.

(** An iteration that throws throws for the first check that fails. *)
Lemma checkBet_inl balance ca sa i st bet e :
  Index.checkBet sc balance ca sa i st bet = inl e ->
  culprit sc ca sa i st bet e.
Proof.
  body_cases; intros H; try discriminate; injection H as <-; simpl;
    guards; auto.
Qed.

Lemma loop_replay balance ca sa (l : list Bet.t) : forall i st st',
  Index.loop sc balance ca sa i st l = inr st' ->
  prevBalance st' =
  Session.replayFrom (Index.calcNewBalance sc) (prevBalance st) l.
Proof.
  unfold Index.loop.
  induction l as [|bet l IH]; intros i st st' H; simpl in H.
  - now injection H as <-.
  - destruct (Index.checkBet sc balance ca sa i st bet) as [e|st1] eqn:E;
      [discriminate|].
    apply checkBet_inr in E. destruct E as (_ & _ & _ & _ & _ & _ & ->).
    apply IH in H. exact H.
Qed.

Lemma loop_Forall balance ca sa (l : list Bet.t) : forall i st st',
  Index.loop sc balance ca sa i st l = inr st' ->
  Forall (fun bet =>
            serverSigOk ca sa bet /\ userSigOk ca bet
            /\ Session.seedsCommitted keccak bet /\ resultOk bet) l.
Proof.
  unfold Index.loop.
  induction l as [|bet l IH]; intros i st st' H; simpl in H; constructor.
  - destruct (Index.checkBet sc balance ca sa i st bet) as [e|st1] eqn:E;
      [discriminate|].
    apply checkBet_inr in E. tauto.
  - destruct (Index.checkBet sc balance ca sa i st bet) as [e|st1] eqn:E;
      [discriminate|].
    eapply IH, H.
Qed.

Lemma loop_balances balance ca sa pre bet post i st st' :
  Index.loop sc balance ca sa i st (pre ++ bet :: post) = inr st' ->
  Bet.balance bet =
  Session.replayFrom (Index.calcNewBalance sc) (prevBalance st) pre.
Proof.
  intros H. apply forLoop_inr_split in H.
  destruct H as (st1 & st2 & Hpre & Hbet & _).
  apply checkBet_inr in Hbet. apply loop_replay in Hpre.
  destruct Hbet as (_ & _ & _ & _ & _ & -> & _). exact Hpre.
Qed.

Lemma loop_chained balance ca sa l i st st' :
  Index.loop sc balance ca sa i st l = inr st' ->
  Session.chained keccak l.
Proof.
  intros H j prev cur Hprev Hcur.
  apply nth_error_split in Hprev. destruct Hprev as (pre & rest & -> & <-).
  rewrite nth_error_app2 in Hcur by lia.
  replace (S (List.length pre) - List.length pre)%nat with 1%nat in Hcur
    by lia.
  destruct rest as [|cur' post]; simpl in Hcur; [discriminate|].
  injection Hcur as ->.
  apply forLoop_inr_split in H. destruct H as (st1 & st2 & _ & Hp & Hc).
  simpl in Hc.
  destruct (Index.checkBet sc balance ca sa _ st2 cur) as [e|st3] eqn:E;
    [discriminate|].
  apply checkBet_inr in Hp, E.
  destruct Hp as (_ & _ & _ & _ & _ & _ & ->).
  destruct E as (_ & _ & _ & Hlink & _).
  destruct Hlink as [Hu Hs]; [lia|]. simpl in Hu, Hs.
  split; congruence.
Qed.


Lemma expectedCount_numBets roundId (regularEnded : bool) :
  roundId - (if regularEnded then 1 else 0)
  = Session.expectedCount roundId regularEnded.
Proof. destruct regularEnded; unfold Session.expectedCount; lia. Qed.

Lemma anchored_cons (hash : string -> string) sEnd uEnd first rest :
  Session.anchored sEnd uEnd (first :: rest)
  <-> sEnd = Bet.serverHash first /\ uEnd = Bet.userHash first.
Proof.
  unfold Session.anchored; simpl. split.
  - intros H. destruct (H first eq_refl). auto.
  - intros [-> ->] f [= <-]. auto.
Qed.

(** The loop never throws one of the errors of the straight-line code. *)
Lemma loop_inl_split balance ca sa l e :
  Index.loop sc balance ca sa 0 initLoop l = inl e ->
  exists pre bet post st,
    l = pre ++ bet :: post
    /\ Index.loop sc balance ca sa 0 initLoop pre = inr st
    /\ Index.checkBet sc balance ca sa (List.length pre) st bet = inl e
    /\ culprit sc ca sa (List.length pre) st bet e.
Proof.
  intros H. apply forLoop_inl_split in H.
  destruct H as (pre & bet & post & st & -> & Hpre & Hbet). simpl in Hbet.
  exists pre, bet, post, st. repeat split; auto.
  eapply checkBet_inl, Hbet.
Qed.

(** What the code after the count check computes, when the array is not
    empty and its earliest bet carries the two end hashes. *)
Lemma verifyBets_run gameId bets roundId balance sEnd uEnd regularEnded ca sa :
  Z.of_nat (List.length bets) = Session.expectedCount roundId regularEnded ->
  bets <> [] ->
  Session.anchored sEnd uEnd (rev bets) ->
  Index.verifyBets sc gameId bets roundId balance sEnd uEnd regularEnded ca sa
  = (rev bets,
     match Index.loop sc balance ca sa 0 initLoop (rev bets) with
     | inl e => inl e
     | inr st =>
         if regularEnded && sne_Z balance (prevBalance st)
         then inl (InvalidGameSessionBalance (prevBalance st) balance)
         else inr true
     end).
Proof.
  intros Hcount Hne Hanch. unfold Index.verifyBets.
  rewrite expectedCount_numBets.
  apply sne_Z_false in Hcount. rewrite Hcount.
  apply sne_Z_false in Hcount.
  assert (Hr : (roundId =? 0) = false).
  { apply Z.eqb_neq. intros ->. destruct bets; [contradiction|].
    destruct regularEnded; unfold Session.expectedCount in Hcount;
      simpl List.length in Hcount; lia. }
  rewrite Hr. f_equal.
  destruct (rev bets) as [|first rest] eqn:E.
  - apply (f_equal (@rev _)) in E. rewrite rev_involutive in E.
    simpl in E. contradiction.
  - apply (anchored_cons keccak) in Hanch. destruct Hanch as [Hs Hu].
    apply sne_string_false in Hs, Hu. rewrite Hs, Hu. reflexivity.
Qed.

(** A run that returns has passed the count check, found the end hashes on
    the earliest bet, run the loop to its end and, for a regular end, found
    the final balance equal to the last running balance. *)
Lemma verifyBets_inr gameId bets roundId balance sEnd uEnd regularEnded ca sa b :
  snd (Index.verifyBets sc gameId bets roundId balance sEnd uEnd
         regularEnded ca sa) = inr b ->
  b = true
  /\ Z.of_nat (List.length bets) = Session.expectedCount roundId regularEnded
  /\ Session.anchored sEnd uEnd (rev bets)
  /\ exists st,
       Index.loop sc balance ca sa 0 initLoop (rev bets) = inr st
       /\ (regularEnded = true -> balance = prevBalance st).
Proof.
  unfold Index.verifyBets. rewrite expectedCount_numBets.
  destruct (sne_Z _ _) eqn:Hcount; simpl; [discriminate|].
  apply sne_Z_false in Hcount.
  destruct (roundId =? 0) eqn:Hr; simpl.
  - intros [= <-]. apply Z.eqb_eq in Hr. subst roundId.
    assert (bets = []) as ->.
    { destruct bets; [reflexivity|].
      destruct regularEnded; unfold Session.expectedCount in Hcount;
        simpl List.length in Hcount; lia. }
    split; [reflexivity|]. split; [assumption|]. split.
    + intros f; simpl; discriminate.
    + exists initLoop. split; [reflexivity|].
      intros ->. unfold Session.expectedCount in Hcount. simpl in Hcount. lia.
  - destruct (rev bets) as [|first rest] eqn:E; [discriminate|].
    destruct (sne_string sEnd _) eqn:Hs; [discriminate|].
    destruct (sne_string uEnd _) eqn:Hu; [discriminate|].
    destruct (Index.loop _ _ _ _ _ _ _) as [e|st] eqn:Hloop; [discriminate|].
    destruct (regularEnded && _) eqn:Hfin; [discriminate|].
    intros [= <-]. guards. split; [reflexivity|]. split; [assumption|]. split.
    + apply (anchored_cons keccak). auto.
    + exists st. split; [reflexivity|]. intros ->.
      destruct Hfin as [Hfin|Hfin]; [discriminate|]. guards. exact Hfin.
Qed.

(** A run that throws threw at one of its [throw] sites. *)
Lemma verifyBets_inl gameId bets roundId balance sEnd uEnd regularEnded ca sa e :
  snd (Index.verifyBets sc gameId bets roundId balance sEnd uEnd
         regularEnded ca sa) = inl e ->
  (e = InvalidNumberOfBets (List.length bets)
         (Session.expectedCount roundId regularEnded)
   /\ Z.of_nat (List.length bets)
      <> Session.expectedCount roundId regularEnded)
  \/ (e = UndefinedFirstBet /\ bets = [])
  \/ e = InvalidFirstBetServerHash
  \/ e = InvalidFirstBetUserHash
  \/ Index.loop sc balance ca sa 0 initLoop (rev bets) = inl e
  \/ exists st,
       Index.loop sc balance ca sa 0 initLoop (rev bets) = inr st
       /\ regularEnded = true /\ balance <> prevBalance st
       /\ e = InvalidGameSessionBalance (prevBalance st) balance.
Proof.
  unfold Index.verifyBets. rewrite expectedCount_numBets.
  destruct (sne_Z _ _) eqn:Hcount; simpl.
  { intros [= <-]. guards. auto. }
  destruct (roundId =? 0) eqn:Hr; simpl; [discriminate|].
  destruct (rev bets) as [|first rest] eqn:E.
  { intros [= <-]. right; left. split; [reflexivity|].
    apply (f_equal (@rev _)) in E. now rewrite rev_involutive in E. }
  destruct (sne_string sEnd _) eqn:Hs; [intros [= <-]; auto|].
  destruct (sne_string uEnd _) eqn:Hu; [intros [= <-]; auto 6|].
  destruct (Index.loop _ _ _ _ _ _ _) as [e'|st] eqn:Hloop.
  { intros [= <-]. auto 6. }
  destruct (regularEnded && _) eqn:Hfin; [|discriminate].
  intros [= <-]. guards. do 5 right. exists st. auto.
Qed.

(** The run throws what the first throwing iteration throws: the bets after
    it are never looked at. *)
Lemma verifyBets_throws_at
    gameId bets roundId balance sEnd uEnd regularEnded ca sa pre bet post st e :
  Z.of_nat (List.length bets) = Session.expectedCount roundId regularEnded ->
  Session.anchored sEnd uEnd (rev bets) ->
  rev bets = pre ++ bet :: post ->
  Index.loop sc balance ca sa 0 initLoop pre = inr st ->
  Index.checkBet sc balance ca sa (List.length pre) st bet = inl e ->
  snd (Index.verifyBets sc gameId bets roundId balance sEnd uEnd
         regularEnded ca sa) = inl e.
Proof.
  intros Hcount Hanch E Hpre Hbet.
  assert (Hne : bets <> []).
  { intros ->. simpl in E. destruct pre; discriminate. }
  rewrite (verifyBets_run gameId _ _ balance _ _ _ ca sa Hcount Hne Hanch).
  simpl. rewrite E. unfold Index.loop in *. rewrite forLoop_app, Hpre.
  simpl. now rewrite Hbet.
Qed.

(** ** The properties of the specification, on the later revision *)

(** C1.  For a non-empty bet array accepted by the count check, a run of
    [verifyBets] that does not abort has established the whole hash chain on
    the chronological sequence [rev bets]: every record's two seeds hash to
    its two declared hashes, the earliest record declares the two end hashes
    of the session, and every later record's declared hash, hashed once,
    is the declared hash of the record immediately before it, on the server
    and on the user side.  Hence any violation aborts the run. *)
Theorem index_hash_chain_required
    gameId bets roundId balance sEnd uEnd regularEnded ca sa b :
  bets <> [] ->
  Z.of_nat (List.length bets) = Session.expectedCount roundId regularEnded ->
  snd (Index.verifyBets sc gameId bets roundId balance sEnd uEnd
         regularEnded ca sa) = inr b ->
  Session.hashChainValid keccak sEnd uEnd (rev bets).
Proof.
  intros _ _ H. apply verifyBets_inr in H.
  destruct H as (_ & _ & Hanch & st & Hloop & _).
  split; [|split].
  - apply loop_Forall in Hloop. eapply Forall_impl, Hloop.
    simpl. tauto.
  - exact Hanch.
  - eapply loop_chained, Hloop.
Qed.

(** C2, as the code has it.  The balance ledger of [verifyBets].  With
    [replay] the running balance obtained by replaying records from zero
    through [calcNewBalance]:
    - an "Invalid balance" error is thrown for a record whose declared
      balance differs from the running balance of the records before it;
    - an "Invalid game session balance" error is thrown only for a session
      that ended regularly, all of whose records went through, and whose
      settled balance differs from the final running balance;
    - a run that returns has found every declared balance equal to the
      running balance and, for a regular end, the settled balance equal to
      the final running balance;
    - once all records went through, the verdict is the final comparison
      when the session ended regularly and success otherwise: the final
      check is skipped for a session that did not end regularly;
    - for the first record that does not go through the loop body, if its
      signatures, seeds, chain links and number are in order and its
      declared balance differs from the running balance, the run throws
      "Invalid balance" for the declared balance of that record;
    - the "Invalid balance" error carries that declared balance and no
      round id. *)
Theorem index_balance_replay
    gameId bets roundId balance sEnd uEnd regularEnded ca sa :
  let result :=
    snd (Index.verifyBets sc gameId bets roundId balance sEnd uEnd
           regularEnded ca sa) in
  let replay := Session.replay (Index.calcNewBalance sc) in
  (forall x y, result = inl (InvalidBalance x y) ->
     exists pre bet post,
       rev bets = pre ++ bet :: post
       /\ x = Bet.balance bet /\ Bet.balance bet <> replay pre)
  /\ (forall p y, result = inl (InvalidGameSessionBalance p y) ->
        regularEnded = true /\ p = replay (rev bets) /\ y = balance
        /\ balance <> replay (rev bets))
  /\ (forall b, result = inr b ->
        Session.balancesReplay (Index.calcNewBalance sc) (rev bets)
        /\ (regularEnded = true -> balance = replay (rev bets)))
  /\ (forall st,
        bets <> [] ->
        Z.of_nat (List.length bets)
        = Session.expectedCount roundId regularEnded ->
        Session.anchored sEnd uEnd (rev bets) ->
        Index.loop sc balance ca sa 0 initLoop (rev bets) = inr st ->
        result =
        if regularEnded && sne_Z balance (replay (rev bets))
        then inl (InvalidGameSessionBalance (replay (rev bets)) balance)
        else inr true)
  /\ (forall pre bet post st,
        Z.of_nat (List.length bets)
        = Session.expectedCount roundId regularEnded ->
        Session.anchored sEnd uEnd (rev bets) ->
        rev bets = pre ++ bet :: post ->
        Index.loop sc balance ca sa 0 initLoop pre = inr st ->
        serverSigOk ca sa bet -> userSigOk ca bet ->
        Session.seedsCommitted keccak bet ->
        (pre = []
         \/ (userPrevHash st = Some (keccak (Bet.userHash bet))
             /\ serverPrevHash st = Some (keccak (Bet.serverHash bet)))) ->
        resultOk bet ->
        Bet.balance bet <> replay pre ->
        exists shown, result = inl (InvalidBalance (Bet.balance bet) shown))
  /\ (forall declared shown,
        namedRound (InvalidBalance declared shown) = None).
Proof.
  intros result replay. subst result replay. repeat apply conj.
  - intros x y H. apply verifyBets_inl in H.
    destruct H as [[H _]|[[H _]|[H|[H|[H|(st & _ & _ & _ & H)]]]]];
      try discriminate.
    apply loop_inl_split in H.
    destruct H as (pre & bet & post & st & E & Hpre & _ & Hx & Hne).
    apply loop_replay in Hpre. exists pre, bet, post.
    subst x. unfold Session.replay. simpl in Hpre. rewrite <- Hpre. auto.
  - intros p y H. apply verifyBets_inl in H.
    destruct H as [[H _]|[[H _]|[H|[H|[H|(st & Hloop & Hr & Hne & H)]]]]];
      try discriminate.
    + apply loop_inl_split in H.
      destruct H as (pre & bet & post & st & _ & _ & _ & []).
    + injection H as -> ->. apply loop_replay in Hloop. simpl in Hloop.
      unfold Session.replay. rewrite <- Hloop. auto.
  - intros b H. apply verifyBets_inr in H.
    destruct H as (_ & _ & _ & st & Hloop & Hfin). split.
    + intros pre bet post E. rewrite E in Hloop.
      apply loop_balances in Hloop. exact Hloop.
    + intros Hr. apply loop_replay in Hloop. simpl in Hloop.
      unfold Session.replay. rewrite <- Hloop. auto.
  - intros st Hne Hcount Hanch Hloop.
    rewrite (verifyBets_run gameId _ _ balance _ _ _ ca sa Hcount Hne Hanch).
    simpl. rewrite Hloop. apply loop_replay in Hloop. simpl in Hloop.
    unfold Session.replay. now rewrite <- Hloop.
  - intros pre bet post st Hcount Hanch E Hpre Hs Hu [Hss Hus] Hlink Hres Hne.
    exists balance. eapply verifyBets_throws_at; eauto.
    unfold Index.checkBet. rewrite Hs, Hu. simpl.
    apply sne_string_false in Hss, Hus. rewrite Hss, Hus.
    assert (Hl : forall h v, (pre = [] \/ v = Some h) ->
              negb (Nat.eqb (List.length pre) 0) && sne_var h v = false).
    { intros h v [Hp|Hv].
      - now rewrite Hp.
      - apply andb_false_iff. right. now apply sne_var_false. }
    rewrite !Hl by tauto.
    apply sne_Z_false in Hres. rewrite Hres.
    apply loop_replay in Hpre. simpl in Hpre.
    unfold Session.replay in Hne. rewrite <- Hpre in Hne.
    apply sne_Z_true in Hne. now rewrite Hne.
  - reflexivity.
Qed.

(** C3.  Signatures in [verifyBets].
    - The signed payload is the record of exactly the eight fields roundId,
      gameType, num, value, balance, serverHash, userHash and gameId of the
      bet; the chain id and the contract address are separate arguments of
      [verifySignature].
    - A run that returns has validated, for every record, the server
      signature against the server address it was given and the user
      signature against the record's own user address.
    - An "Invalid server signature" or "Invalid player signature" error
      carries the round id of a record whose signature of that side does not
      validate.
    - For the first record that does not go through the loop body, a server
      signature that does not validate makes the run throw "Invalid server
      signature" with that record's round id, and a user signature that
      does not validate (the server's being valid) makes it throw "Invalid
      player signature" with that round id. *)
Theorem index_signatures_checked
    gameId bets roundId balance sEnd uEnd regularEnded ca sa :
  let result :=
    snd (Index.verifyBets sc gameId bets roundId balance sEnd uEnd
           regularEnded ca sa) in
  (forall bet,
     Index.signedBetData bet =
     SignedBetData.mk (Bet.roundId bet) (Bet.gameType bet) (Bet.num bet)
       (Bet.value bet) (Bet.balance bet) (Bet.serverHash bet)
       (Bet.userHash bet) (Bet.gameId bet))
  /\ (forall b, result = inr b ->
        Forall (fun bet => serverSigOk ca sa bet /\ userSigOk ca bet) bets)
  /\ (forall r, result = inl (InvalidServerSignature r) ->
        exists bet, In bet bets /\ Bet.roundId bet = r
          /\ Index.verifySignature sc (Index.signedBetData bet)
               Index.CHAIN_ID ca (Bet.serverSig bet) sa = false)
  /\ (forall r, result = inl (InvalidPlayerSignature r) ->
        exists bet, In bet bets /\ Bet.roundId bet = r
          /\ Index.verifySignature sc (Index.signedBetData bet)
               Index.CHAIN_ID ca (Bet.userSig bet)
               (User.address (Bet.user bet)) = false)
  /\ (forall pre bet post st,
        Z.of_nat (List.length bets)
        = Session.expectedCount roundId regularEnded ->
        Session.anchored sEnd uEnd (rev bets) ->
        rev bets = pre ++ bet :: post ->
        Index.loop sc balance ca sa 0 initLoop pre = inr st ->
        (Index.verifySignature sc (Index.signedBetData bet)
           Index.CHAIN_ID ca (Bet.serverSig bet) sa = false ->
         result = inl (InvalidServerSignature (Bet.roundId bet)))
        /\ (serverSigOk ca sa bet ->
            Index.verifySignature sc (Index.signedBetData bet)
              Index.CHAIN_ID ca (Bet.userSig bet)
              (User.address (Bet.user bet)) = false ->
            result = inl (InvalidPlayerSignature (Bet.roundId bet)))).
Proof.
  intros result; subst result. repeat apply conj.
  - reflexivity.
  - intros b H. apply verifyBets_inr in H.
    destruct H as (_ & _ & _ & st & Hloop & _).
    apply loop_Forall in Hloop. apply Forall_rev in Hloop.
    rewrite rev_involutive in Hloop.
    eapply Forall_impl, Hloop. simpl. tauto.
  - intros r H. apply verifyBets_inl in H.
    destruct H as [[H _]|[[H _]|[H|[H|[H|(st & _ & _ & _ & H)]]]]];
      try discriminate.
    apply loop_inl_split in H.
    destruct H as (pre & bet & post & st & E & _ & _ & Hr & Hsig).
    exists bet. split; [|auto].
    apply in_rev. rewrite E. apply in_elt.
  - intros r H. apply verifyBets_inl in H.
    destruct H as [[H _]|[[H _]|[H|[H|[H|(st & _ & _ & _ & H)]]]]];
      try discriminate.
    apply loop_inl_split in H.
    destruct H as (pre & bet & post & st & E & _ & _ & Hr & Hsig).
    exists bet. split; [|auto].
    apply in_rev. rewrite E. apply in_elt.
  - intros pre bet post st Hcount Hanch E Hpre. split.
    + intros Hsig. eapply verifyBets_throws_at; eauto.
      unfold Index.checkBet. now rewrite Hsig.
    + intros Hs Hu. eapply verifyBets_throws_at; eauto.
      unfold Index.checkBet. now rewrite Hs, Hu.
Qed.

(** C4.  The outcome check of [verifyBets].  The recomputed number is
    [calcResultNumber(gameType, serverSeed, userSeed, num)], a function of
    the two revealed seeds and of the bet's parameters.
    - A run that returns has found every record's [resultNum] equal to the
      recomputed number.
    - An "Invalid number" error carries the declared and the recomputed
      number of a record on which they differ.
    - For the first record that does not go through the loop body, if its
      signatures, seeds and chain links are in order and its [resultNum]
      differs from the recomputed number, the run throws "Invalid number" at
      once: before the balance of that record is looked at, and whatever the
      later records are. *)
Theorem index_outcome_recomputed
    gameId bets roundId balance sEnd uEnd regularEnded ca sa :
  let result :=
    snd (Index.verifyBets sc gameId bets roundId balance sEnd uEnd
           regularEnded ca sa) in
  let recomputed bet :=
    Index.calcResultNumber sc (Bet.gameType bet) (Bet.serverSeed bet)
      (Bet.userSeed bet) (Bet.num bet) in
  (forall b, result = inr b ->
     Forall (fun bet => Bet.resultNum bet = recomputed bet) bets)
  /\ (forall n m, result = inl (InvalidNumber n m) ->
        exists bet, In bet bets /\ n = Bet.resultNum bet
          /\ m = recomputed bet /\ n <> m)
  /\ (forall pre bet post st,
        Z.of_nat (List.length bets)
        = Session.expectedCount roundId regularEnded ->
        Session.anchored sEnd uEnd (rev bets) ->
        rev bets = pre ++ bet :: post ->
        Index.loop sc balance ca sa 0 initLoop pre = inr st ->
        serverSigOk ca sa bet -> userSigOk ca bet ->
        Session.seedsCommitted keccak bet ->
        (pre = []
         \/ (userPrevHash st = Some (keccak (Bet.userHash bet))
             /\ serverPrevHash st = Some (keccak (Bet.serverHash bet)))) ->
        Bet.resultNum bet <> recomputed bet ->
        result = inl (InvalidNumber (Bet.resultNum bet) (recomputed bet))).
Proof.
  intros result recomputed; subst result recomputed. repeat apply conj.
  - intros b H. apply verifyBets_inr in H.
    destruct H as (_ & _ & _ & st & Hloop & _).
    apply loop_Forall in Hloop. apply Forall_rev in Hloop.
    rewrite rev_involutive in Hloop.
    eapply Forall_impl, Hloop. simpl. tauto.
  - intros n m H. apply verifyBets_inl in H.
    destruct H as [[H _]|[[H _]|[H|[H|[H|(st & _ & _ & _ & H)]]]]];
      try discriminate.
    apply loop_inl_split in H.
    destruct H as (pre & bet & post & st & E & _ & _ & Hn & Hm & Hne).
    exists bet. split; [|auto].
    apply in_rev. rewrite E. apply in_elt.
  - intros pre bet post st Hcount Hanch E Hpre Hs Hu [Hss Hus] Hlink Hne.
    eapply verifyBets_throws_at; eauto.
    unfold Index.checkBet. rewrite Hs, Hu. simpl.
    apply sne_string_false in Hss, Hus. rewrite Hss, Hus.
    assert (Hl : forall h v, (pre = [] \/ v = Some h) ->
              negb (Nat.eqb (List.length pre) 0) && sne_var h v = false).
    { intros h v [Hp|Hv].
      - now rewrite Hp.
      - apply andb_false_iff. right. now apply sne_var_false. }
    rewrite !Hl by tauto.
    apply sne_Z_true in Hne. now rewrite Hne.
Qed.

(** C5.  The count check of [verifyBets].  The expected number of records is
    the final round id minus one for a session that ended regularly, and
    the final round id otherwise.  When the length of the array differs from
    it, the run throws "Invalid number of bets" whatever the rest of the
    input is, and leaves the array as it was: the check comes before every
    other one.  When the length is the expected one, that error is never
    thrown. *)
Theorem index_count_check
    gameId bets roundId balance sEnd uEnd regularEnded ca sa :
  let expected := Session.expectedCount roundId regularEnded in
  (Z.of_nat (List.length bets) <> expected ->
   Index.verifyBets sc gameId bets roundId balance sEnd uEnd regularEnded
     ca sa
   = (bets, inl (InvalidNumberOfBets (List.length bets) expected)))
  /\ (Z.of_nat (List.length bets) = expected ->
      forall len n,
        snd (Index.verifyBets sc gameId bets roundId balance sEnd uEnd
               regularEnded ca sa)
        <> inl (InvalidNumberOfBets len n)).
Proof.
  intros expected; subst expected. split.
  - intros H. unfold Index.verifyBets. rewrite expectedCount_numBets.
    apply sne_Z_true in H. now rewrite H.
  - intros Hcount len n H. apply verifyBets_inl in H.
    destruct H as [[_ H]|[[H _]|[H|[H|[H|(st & _ & _ & _ & H)]]]]];
      try discriminate; [contradiction|].
    apply loop_inl_split in H.
    destruct H as (pre & bet & post & st & _ & _ & _ & []).
Qed.

(** C6.  A session that ended regularly after its first round has no bet:
    the expected count is zero and the empty array passes the count check.
    [verifyBets] then skips its shortcut, which tests [roundId === 0], and
    throws on reading [firstBet.serverHash] of the empty array. *)
Theorem index_empty_regular_session_throws
    gameId balance sEnd uEnd ca sa :
  Session.expectedCount 1 true = 0
  /\ Index.verifyBets sc gameId [] 1 balance sEnd uEnd true ca sa
     = ([], inl UndefinedFirstBet).
Proof. split; reflexivity. Qed.

(** The shortcut is taken when the final round id is 0 and the session did
    not end regularly. *)
Lemma index_empty_forced_session_returns gameId balance sEnd uEnd ca sa :
  Session.expectedCount 0 false = 0
  /\ Index.verifyBets sc gameId [] 0 balance sEnd uEnd false ca sa
     = ([], inr true).
Proof. split; reflexivity. Qed.

(** With an expected count of zero and no bet, the run returns exactly when
    the final round id is 0. *)
Lemma index_zero_count_outcome
    gameId roundId balance sEnd uEnd regularEnded ca sa :
  Session.expectedCount roundId regularEnded = 0 ->
  Index.verifyBets sc gameId [] roundId balance sEnd uEnd regularEnded ca sa
  = ([], if roundId =? 0 then inr true else inl UndefinedFirstBet).
Proof.
  intros H. unfold Index.verifyBets. rewrite expectedCount_numBets, H.
  simpl. now destruct (roundId =? 0).
Qed.



(** C9, as the code has it.  [verifyBets] leaves no trace but on the array
    it is given: when the count check fails or the final round id is 0 the
    array is untouched; otherwise it holds the same bets in reversed order
    once the call is over, whether the call returns or throws.  In every
    case it holds the same bets, none of them modified. *)
Theorem index_array_after_verification
    gameId bets roundId balance sEnd uEnd regularEnded ca sa :
  let after :=
    fst (Index.verifyBets sc gameId bets roundId balance sEnd uEnd
           regularEnded ca sa) in
  (Z.of_nat (List.length bets) <> Session.expectedCount roundId regularEnded
   \/ roundId = 0 -> after = bets)
  /\ (Z.of_nat (List.length bets) = Session.expectedCount roundId regularEnded
      -> roundId <> 0 -> after = rev bets)
  /\ Permutation bets after.
Proof.
  intros after; subst after. unfold Index.verifyBets.
  rewrite expectedCount_numBets.
  destruct (sne_Z _ _) eqn:Hcount; simpl; guards.
  - split; [reflexivity|]. split; [contradiction|apply Permutation_refl].
  - destruct (roundId =? 0) eqn:Hr; simpl.
    + apply Z.eqb_eq in Hr.
      split; [reflexivity|]. split; [contradiction|apply Permutation_refl].
    + apply Z.eqb_neq in Hr.
      split; [tauto|]. split; [reflexivity|apply Permutation_rev].
Qed.

(** C10.  [verifyBets] returns nothing but [true]: a run either throws or
    returns [true].  The caller [verifyGameSession] therefore never shows
    "Bet Validation failed!". *)
Theorem index_verifyBets_returns_true
    gameId bets roundId balance sEnd uEnd regularEnded ca sa :
  (forall b,
     snd (Index.verifyBets sc gameId bets roundId balance sEnd uEnd
            regularEnded ca sa) = inr b -> b = true)
  /\ (forall gameData,
        snd (Index.verifyGameSession sc gameId bets gameData)
        <> inr BetValidationFailed).
Proof.
  split.
  - intros b H. apply verifyBets_inr in H. tauto.
  - intros gameData. unfold Index.verifyGameSession.
    destruct (Index.selectAddresses gameId) as [c s].
    destruct (Index.verifyBets _ _ _ _ _ _ _ _ _ _) as [arr [e|b]] eqn:E;
      simpl; [discriminate|].
    assert (b = true) as ->.
    { eapply verifyBets_inr. rewrite E. reflexivity. }
    simpl. discriminate.
Qed.

(** The addresses [verifyGameSession] hands to [verifyBets] are those of the
    era selected for the game id: a session reported as valid has every
    server signature validated against the signer of that era, under the
    contract of that era. *)
Lemma index_session_signatures gameId bets gameData n g :
  snd (Index.verifyGameSession sc gameId bets gameData)
  = inr (AllBetsValid n g) ->
  Forall (fun bet =>
            serverSigOk (fst (Index.selectAddresses gameId))
              (snd (Index.selectAddresses gameId)) bet
            /\ userSigOk (fst (Index.selectAddresses gameId)) bet) bets.
Proof.
  unfold Index.verifyGameSession.
  destruct (Index.selectAddresses gameId) as [c s]. simpl.
  destruct (Index.verifyBets _ _ _ _ _ _ _ _ _ _) as [arr [e|b]] eqn:E;
    simpl; [discriminate|].
  intros _.
  assert (H : snd (Index.verifyBets sc gameId bets
                     (GameData.roundId gameData) (GameData.balance gameData)
                     (GameData.serverEndHash gameData)
                     (GameData.userEndHash gameData)
                     (GameData.regularEnded gameData) c s) = inr b)
    by now rewrite E.
  apply verifyBets_inr in H. destruct H as (_ & _ & _ & st & Hloop & _).
  apply loop_Forall in Hloop. apply Forall_rev in Hloop.
  rewrite rev_involutive in Hloop.
  eapply Forall_impl, Hloop. simpl. tauto.
Qed.

End IndexFacts.

(** ** Era resolution *)

Lemma inEra_bounds sessionId lo hi c s v :
  Session.inEra sessionId (Session.mkEra lo hi c s v)
  <-> match lo with Some l => l <= sessionId | None => True end
      /\ match hi with Some h => sessionId < h | None => True end.
Proof. reflexivity. Qed.

(** Comparisons of the program as propositions. *)
Ltac compare_Z :=
  repeat match goal with
  | H : (_ <? _) = true |- _ => apply Z.ltb_lt in H
  | H : (_ <? _) = false |- _ => apply Z.ltb_ge in H
  | H : (_ <=? _) = true |- _ => apply Z.leb_le in H
  | H : (_ <=? _) = false |- _ => apply Z.leb_gt in H
  end.

(** The era at hand is in the table, holds the id, and no other era of the
    table does. *)
Ltac unique_era :=
  split; [simpl; tauto|];
  split; [apply inEra_bounds; lia|];
  let era := fresh "era" in
  let Hin := fresh "Hin" in
  let Hera := fresh "Hera" in
  intros era Hin Hera; simpl in Hin;
  repeat (destruct Hin as [Hin|Hin];
          [subst era; try reflexivity; apply inEra_bounds in Hera; lia|]);
  contradiction.

(** C7.  Era resolution in the revision that has a minimum game id.
    [getContractAddress] throws "Verification not supported" for every game
    id below 256, the lowest id of the era table.  For every game id from
    256 on, the id lies in exactly one era of the table, and that era gives
    the contract address [getContractAddress] returns, the signature version
    [getSignatureVersion] returns and the server address the verifier
    checks signatures against.  The thresholds of the table are ordered,
    without gap or overlap. *)
Theorem part000_era_resolution (gameId : Z) :
  (gameId < 256 ->
   Part000.getContractAddress gameId = inl VerificationNotSupported)
  /\ (256 <= gameId ->
      exists era,
        Session.resolvesTo part000Eras gameId era
        /\ Part000.getContractAddress gameId
           = inr (Session.contractIdentity era)
        /\ Some (Part000.getSignatureVersion gameId)
           = Session.signatureVersion era
        /\ Part000.SERVER_ADDRESS = Session.serverIdentity era)
  /\ (forall era,
        In era part000Eras -> Session.inEra gameId era -> 256 <= gameId)
  /\ Session.contiguous part000Eras.
Proof.
  unfold Part000.getContractAddress, Part000.getSignatureVersion,
    Part000.NEW_EIP_GAME_ID, Part000.OLD_EIP_GAME_ID.
  split; [|split; [|split]].
  - intros H. apply Z.ltb_lt in H. now rewrite H.
  - intros H.
    destruct (gameId <? 256) eqn:E0; [apply Z.ltb_lt in E0; lia|].
    destruct (gameId <? 572) eqn:E1;
      [|destruct (gameId <? 638) eqn:E2];
      destruct (638 <=? gameId) eqn:E3; compare_Z; try lia; simpl.
    + exists (Session.mkEra (Some 256) (Some 572)
                Part000.CONTRACT_ADDRESS2 Part000.SERVER_ADDRESS (Some 1)).
      split; [|auto]. unique_era.
    + exists (Session.mkEra (Some 572) (Some 638)
                Part000.CONTRACT_ADDRESS3 Part000.SERVER_ADDRESS (Some 2)).
      split; [|auto]. unique_era.
    + exists (Session.mkEra (Some 638) None
                Part000.CONTRACT_ADDRESS4 Part000.SERVER_ADDRESS (Some 1)).
      split; [|auto]. unique_era.
  - intros era Hin Hera. simpl in Hin.
    destruct Hin as [<-|[<-|[<-|[]]]]; apply inEra_bounds in Hera; lia.
  - cbn. repeat split; try discriminate.
Qed.

(** X10.  The later revision has no minimum: every game id selects exactly one of
    its two eras, and nothing is thrown. *)
Lemma index_era_selection (gameId : Z) :
  (exists era,
     Session.resolvesTo indexEras gameId era
     /\ Index.selectAddresses gameId
        = (Session.contractIdentity era, Session.serverIdentity era))
  /\ Session.contiguous indexEras.
Proof.
  split; [|cbn; repeat split; try discriminate].
  unfold Index.selectAddresses, Index.GAME_ID_CONTRACT_CHANGED.
  destruct (5246 <=? gameId) eqn:E; compare_Z.
  - exists (Session.mkEra (Some 5246) None
              Index.CONTRACT_ADDRESS Index.SERVER_ADDRESS None).
    split; [|reflexivity]. unique_era.
  - exists (Session.mkEra None (Some 5246)
              Index.CONTRACT_ADDRESS_OLD Index.SERVER_ADDRESS_OLD None).
    split; [|reflexivity]. unique_era.
Qed.

(** ** The earlier revision *)

Section Part000Facts.

Variable sc : Part000.StateChannel.

(** The count check is the same. *)
Lemma part000_count_mismatch gameId bets roundId balance sEnd uEnd regularEnded :
  Z.of_nat (List.length bets) <> Session.expectedCount roundId regularEnded ->
  Part000.verifyBets sc gameId bets roundId balance sEnd uEnd regularEnded
  = (bets, inl (InvalidNumberOfBets (List.length bets)
                  (Session.expectedCount roundId regularEnded))).
Proof.
  intros H. unfold Part000.verifyBets. rewrite expectedCount_numBets.
  apply sne_Z_true in H. now rewrite H.
Qed.

(** No shortcut: an empty array that passes the count check always makes
    this revision throw on [firstBet.serverHash]. *)
Lemma part000_empty_array_throws gameId roundId balance sEnd uEnd regularEnded :
  Session.expectedCount roundId regularEnded = 0 ->
  Part000.verifyBets sc gameId [] roundId balance sEnd uEnd regularEnded
  = ([], inl UndefinedFirstBet).
Proof.
  intros H. unfold Part000.verifyBets. now rewrite expectedCount_numBets, H.
Qed.

(** The array is reversed in place as soon as the count check is passed. *)
Lemma part000_array_after gameId bets roundId balance sEnd uEnd regularEnded :
  fst (Part000.verifyBets sc gameId bets roundId balance sEnd uEnd
         regularEnded)
  = if sne_Z (Z.of_nat (List.length bets))
         (Session.expectedCount roundId regularEnded)
    then bets else rev bets.
Proof.
  unfold Part000.verifyBets. rewrite expectedCount_numBets.
  now destruct (sne_Z _ _).
Qed.

(** A run returns nothing but [true]. *)
Lemma part000_verifyBets_returns_true
    gameId bets roundId balance sEnd uEnd regularEnded b :
  snd (Part000.verifyBets sc gameId bets roundId balance sEnd uEnd
         regularEnded) = inr b ->
  b = true.
Proof.
  unfold Part000.verifyBets.
  repeat match goal with
  | |- context [if ?c then _ else _] => destruct c
  | |- context [match ?x with _ => _ end] => destruct x
  end; simpl; congruence.
Qed.

(** The final balance is compared whether or not the session ended
    regularly. *)
Lemma part000_final_check_always
    gameId bets roundId balance sEnd uEnd regularEnded st :
  Z.of_nat (List.length bets) = Session.expectedCount roundId regularEnded ->
  bets <> [] ->
  Session.anchored sEnd uEnd (rev bets) ->
  Part000.loop sc balance (Part000.getSignatureVersion gameId) 0 initLoop
    (rev bets) = inr st ->
  balance <> prevBalance st ->
  snd (Part000.verifyBets sc gameId bets roundId balance sEnd uEnd
         regularEnded)
  = inl (InvalidGameSessionBalance (prevBalance st) balance).
Proof.
  intros Hcount Hne Hanch Hloop Hbal. unfold Part000.verifyBets.
  rewrite expectedCount_numBets.
  apply sne_Z_false in Hcount. rewrite Hcount. simpl.
  destruct (rev bets) as [|first rest] eqn:E.
  - apply (f_equal (@rev _)) in E. rewrite rev_involutive in E.
    contradiction.
  - apply (anchored_cons (Part000.keccak sc)) in Hanch.
    destruct Hanch as [Hs Hu].
    apply sne_string_false in Hs, Hu. rewrite Hs, Hu, Hloop.
    apply sne_Z_true in Hbal. now rewrite Hbal.
Qed.

Local Abbreviation keccak := (Part000.keccak sc).
Local Abbreviation sigsOk version bet :=
  (Part000.verifySignature sc (Part000.signedBetData bet) Part000.CHAIN_ID
     (Bet.contractAddress bet) (Bet.serverSig bet) Part000.SERVER_ADDRESS
     version = true
   /\ Part000.verifySignature sc (Part000.signedBetData bet) Part000.CHAIN_ID
        (Bet.contractAddress bet) (Bet.userSig bet)
        (User.address (Bet.user bet)) version = true).

(** An iteration of this revision that does not throw: signatures under the
    contract address the bet carries, seeds, links, and the loop variables
    after it. *)
Lemma part000_checkBet_inr balance version i st bet st' :
  Part000.checkBet sc balance version i st bet = inr st' ->
  sigsOk version bet
  /\ Session.seedsCommitted keccak bet
  /\ (i <> 0%nat ->
      userPrevHash st = Some (keccak (Bet.userHash bet))
      /\ serverPrevHash st = Some (keccak (Bet.serverHash bet)))
  /\ Bet.balance bet = prevBalance st
  /\ userPrevHash st' = Some (Bet.userHash bet)
  /\ serverPrevHash st' = Some (Bet.serverHash bet)
  /\ prevBalance st' =
     Session.advance (Part000.calcNewBalance sc) (prevBalance st) bet.
Proof.
  unfold Part000.checkBet.
  repeat match goal with
  | |- context [if ?c then _ else _] => let E := fresh "E" in destruct c eqn:E
  end; intros H; try discriminate; guards.
  injection H as <-. unfold Session.seedsCommitted. simpl.
  assert (Hlink : i <> 0%nat ->
            userPrevHash st = Some (keccak (Bet.userHash bet))
            /\ serverPrevHash st = Some (keccak (Bet.serverHash bet))).
  { intros Hi. split.
    - destruct E3 as [E3|E3]; guards; [contradiction | assumption].
    - destruct E4 as [E4|E4]; guards; [contradiction | assumption]. }
  repeat split; auto; apply Hlink; assumption.
Qed.

Lemma part000_loop_Forall balance version (l : list Bet.t) : forall i st st',
  Part000.loop sc balance version i st l = inr st' ->
  Forall (fun bet => sigsOk version bet /\ Session.seedsCommitted keccak bet)
    l.
Proof.
  unfold Part000.loop.
  induction l as [|bet l IH]; intros i st st' H; simpl in H; constructor;
    destruct (Part000.checkBet sc balance version i st bet) as [e|st1] eqn:E;
    try discriminate.
  - apply part000_checkBet_inr in E. tauto.
  - eapply IH, H.
Qed.

Lemma part000_loop_chained balance version l i st st' :
  Part000.loop sc balance version i st l = inr st' ->
  Session.chained keccak l.
Proof.
  intros H j prev cur Hprev Hcur.
  apply nth_error_split in Hprev. destruct Hprev as (pre & rest & -> & <-).
  rewrite nth_error_app2 in Hcur by lia.
  replace (S (List.length pre) - List.length pre)%nat with 1%nat in Hcur
    by lia.
  destruct rest as [|cur' post]; simpl in Hcur; [discriminate|].
  injection Hcur as ->.
  apply forLoop_inr_split in H. destruct H as (st1 & st2 & _ & Hp & Hc).
  simpl in Hc.
  destruct (Part000.checkBet sc balance version _ st2 cur) as [e|st3] eqn:E;
    [discriminate|].
  apply part000_checkBet_inr in Hp, E.
  destruct Hp as (_ & _ & _ & _ & Hu' & Hs' & _).
  destruct E as (_ & _ & Hlink & _).
  destruct Hlink as [Hu Hs]; [lia|].
  split; congruence.
Qed.

(** On this revision too, a run that returns has validated both signatures
    of every bet and the whole hash chain. *)
Lemma part000_success_requires
    gameId bets roundId balance sEnd uEnd regularEnded b :
  snd (Part000.verifyBets sc gameId bets roundId balance sEnd uEnd
         regularEnded) = inr b ->
  Forall (fun bet => sigsOk (Part000.getSignatureVersion gameId) bet) bets
  /\ Session.hashChainValid keccak sEnd uEnd (rev bets).
Proof.
  unfold Part000.verifyBets. rewrite expectedCount_numBets.
  destruct (sne_Z _ _); simpl; [discriminate|].
  destruct (rev bets) as [|first rest] eqn:E; [discriminate|].
  destruct (sne_string sEnd _) eqn:Hs; [discriminate|].
  destruct (sne_string uEnd _) eqn:Hu; [discriminate|].
  destruct (Part000.loop _ _ _ _ _ _) as [e|st] eqn:Hloop; [discriminate|].
  intros _. guards.
  pose proof (part000_loop_Forall _ _ _ _ _ _ Hloop) as HF.
  split; [|split; [|split]].
  - rewrite <- E in HF. apply Forall_rev in HF.
    rewrite rev_involutive in HF. eapply Forall_impl, HF. simpl. tauto.
  - eapply Forall_impl, HF. simpl. tauto.
  - apply (anchored_cons keccak). auto.
  - eapply part000_loop_chained, Hloop.
Qed.

End Part000Facts.

(** ** The verifier at work on explicit sessions

    [Toy.bets] is the session of three rounds with pre-round balances
    0, 100, 250 and post-round balances 100, 250, 400. *)

(** Ended regularly with settled balance 400: verified, three bets. *)
Example index_scenario_settled_400 :
  Index.verifyGameSession Toy.index 6000 Toy.bets
    (GameData.mk 4 400 "###s" "###u" true)
  = ([Toy.bet1; Toy.bet2; Toy.bet3], inr (AllBetsValid 3 6000)).
Proof. vm_compute. reflexivity. Qed.

(** Ended regularly with settled balance 399: the final check fails. *)
Example index_scenario_settled_399 :
  snd (Index.verifyGameSession Toy.index 6000 Toy.bets
         (GameData.mk 4 399 "###s" "###u" true))
  = inl (InvalidGameSessionBalance 400 399).
Proof. vm_compute. reflexivity. Qed.

(** Not ended regularly, settled balance 399: the final check is skipped. *)
Example index_scenario_forced_399 :
  snd (Index.verifyGameSession Toy.index 6000 Toy.bets
         (GameData.mk 3 399 "###s" "###u" false))
  = inr (AllBetsValid 3 6000).
Proof. vm_compute. reflexivity. Qed.

(** The earlier revision compares the final balance in that case too. *)
Example part000_scenario_forced_399 :
  snd (Part000.verifyBets Toy.part000 600 Toy.oldBets 3 400 "###s" "###u"
         false) = inr true
  /\ snd (Part000.verifyBets Toy.part000 600 Toy.oldBets 3 399 "###s" "###u"
            false) = inl (InvalidGameSessionBalance 400 399).
Proof. split; vm_compute; reflexivity. Qed.

(** A seed that does not hash to its commitment is reported with its round
    id and its side. *)
Example index_seed_error_names_round :
  let e := InvalidUserSeed 2 in
  snd (Index.verifyBets Toy.index 6000
         [Toy.bet3;
          Toy.mkBet Index.SERVER_ADDRESS 2 7 150 100 "##s" "##u" "#s" "u" 7;
          Toy.bet1]
         4 400 "###s" "###u" true Index.CONTRACT_ADDRESS Index.SERVER_ADDRESS)
  = inl e
  /\ message e = "Invalid user seed for bet with roundId: 2"%string
  /\ namedRound e = Some 2 /\ namedSide e = Some Player.
Proof. repeat split; vm_compute; reflexivity. Qed.

(** The two labels of the count error are swapped with respect to the values
    printed: the array length is printed as the expected number. *)
Example count_error_message :
  message (InvalidNumberOfBets 3 2)
  = "Invalid number of bets! Expected: 3 Got: 2"%string.
Proof. vm_compute. reflexivity. Qed.

(** ** Instances of the claims *)

(** C1 at the three-round session: the run returns, so the chain is valid. *)
Lemma index_hash_chain_required_witness :
  Session.hashChainValid Toy.keccak "###s" "###u" (rev Toy.bets).
Proof.
  apply (index_hash_chain_required Toy.index 6000 Toy.bets 4 400
           "###s" "###u" true Index.CONTRACT_ADDRESS Index.SERVER_ADDRESS
           true);
    [discriminate | reflexivity | vm_compute; reflexivity].
Defined.

(** C2 at the three-round session: the declared balances are the running
    balances and the settled balance 400 is the final running balance. *)
Lemma index_balance_replay_witness :
  Session.balancesReplay (Index.calcNewBalance Toy.index) (rev Toy.bets)
  /\ 400 = Session.replay (Index.calcNewBalance Toy.index) (rev Toy.bets).
Proof.
  assert (Hrun : snd (Index.verifyBets Toy.index 6000 Toy.bets 4 400
                        "###s" "###u" true Index.CONTRACT_ADDRESS
                        Index.SERVER_ADDRESS) = inr true)
    by (vm_compute; reflexivity).
  destruct (proj1 (proj2 (proj2
              (index_balance_replay Toy.index 6000 Toy.bets 4 400
                 "###s" "###u" true Index.CONTRACT_ADDRESS
                 Index.SERVER_ADDRESS))) true Hrun) as [Hbal Hfin].
  split; [exact Hbal | exact (Hfin eq_refl)].
Defined.

(** C2: a declared balance of 50 that is off at round 2 and one that is off
    at round 3 are reported by one and the same error, "Invalid balance 50
    instead of 400", which names no round. *)
Lemma index_balance_error_names_no_round :
  let run bets :=
    snd (Index.verifyBets Toy.index 6000 bets 4 400 "###s" "###u" true
           Index.CONTRACT_ADDRESS Index.SERVER_ADDRESS) in
  let bet2_off :=
    Toy.mkBet Index.SERVER_ADDRESS 2 7 150 50 "##s" "##u" "#s" "#u" 7 in
  let bet3_off :=
    Toy.mkBet Index.SERVER_ADDRESS 3 7 150 50 "#s" "#u" "s" "u" 7 in
  Bet.roundId bet2_off = 2
  /\ run [Toy.bet3; bet2_off; Toy.bet1] = inl (InvalidBalance 50 400)
  /\ Bet.roundId bet3_off = 3
  /\ run [bet3_off; Toy.bet2; Toy.bet1] = inl (InvalidBalance 50 400)
  /\ message (InvalidBalance 50 400)
     = "Invalid balance 50 instead of 400"%string
  /\ namedRound (InvalidBalance 50 400) = None.
Proof. repeat apply conj; vm_compute; reflexivity. Qed.

(** C3 at the three-round session: both signatures of every bet validate. *)
Lemma index_signatures_checked_witness :
  Forall (fun bet =>
            Toy.verifySignature (Index.signedBetData bet) Index.CHAIN_ID
              Index.CONTRACT_ADDRESS (Bet.serverSig bet) Index.SERVER_ADDRESS
            = true
            /\ Toy.verifySignature (Index.signedBetData bet) Index.CHAIN_ID
                 Index.CONTRACT_ADDRESS (Bet.userSig bet)
                 (User.address (Bet.user bet)) = true)
    Toy.bets.
Proof.
  apply (proj1 (proj2
           (index_signatures_checked Toy.index 6000 Toy.bets 4 400
              "###s" "###u" true Index.CONTRACT_ADDRESS
              Index.SERVER_ADDRESS)) true).
  vm_compute. reflexivity.
Defined.

(** C4 at the three-round session: every declared number is the recomputed
    one. *)
Lemma index_outcome_recomputed_witness :
  Forall (fun bet =>
            Bet.resultNum bet =
            Index.calcResultNumber Toy.index (Bet.gameType bet)
              (Bet.serverSeed bet) (Bet.userSeed bet) (Bet.num bet))
    Toy.bets.
Proof.
  apply (proj1
           (index_outcome_recomputed Toy.index 6000 Toy.bets 4 400
              "###s" "###u" true Index.CONTRACT_ADDRESS
              Index.SERVER_ADDRESS) true).
  vm_compute. reflexivity.
Defined.

(** C5 at the three-round session with a final round id of 3 and a regular
    end: two bets are expected, three are supplied. *)
Lemma index_count_check_witness :
  Index.verifyBets Toy.index 6000 Toy.bets 3 400 "###s" "###u" true
    Index.CONTRACT_ADDRESS Index.SERVER_ADDRESS
  = (Toy.bets, inl (InvalidNumberOfBets 3 2)).
Proof.
  apply (proj1
           (index_count_check Toy.index 6000 Toy.bets 3 400 "###s" "###u"
              true Index.CONTRACT_ADDRESS Index.SERVER_ADDRESS)).
  vm_compute. discriminate.
Defined.

(** C7 at game id 600: the second era. *)
Lemma part000_era_resolution_witness :
  exists era,
    Session.resolvesTo part000Eras 600 era
    /\ Part000.getContractAddress 600 = inr (Session.contractIdentity era)
    /\ Some (Part000.getSignatureVersion 600) = Session.signatureVersion era
    /\ Part000.SERVER_ADDRESS = Session.serverIdentity era.
Proof.
  apply (proj1 (proj2 (part000_era_resolution 600))). lia.
Defined.



(** C9: after a successful run the caller's array is in the opposite order,
    and a second run on that same array fails. *)
Lemma index_verifyBets_reverses_the_array :
  let call bets :=
    Index.verifyBets Toy.index 6000 bets 4 400 "###s" "###u" true
      Index.CONTRACT_ADDRESS Index.SERVER_ADDRESS in
  snd (call Toy.bets) = inr true
  /\ fst (call Toy.bets) = [Toy.bet1; Toy.bet2; Toy.bet3]
  /\ fst (call Toy.bets) <> Toy.bets
  /\ snd (call (fst (call Toy.bets))) = inl InvalidFirstBetServerHash.
Proof.
  repeat apply conj; try (vm_compute; reflexivity); vm_compute; discriminate.
Qed.

(** C9, amended, at the three-round session. *)
Lemma index_array_after_verification_witness :
  fst (Index.verifyBets Toy.index 6000 Toy.bets 4 400 "###s" "###u" true
         Index.CONTRACT_ADDRESS Index.SERVER_ADDRESS)
  = rev Toy.bets.
Proof.
  apply (proj1 (proj2
           (index_array_after_verification Toy.index 6000 Toy.bets 4 400
              "###s" "###u" true Index.CONTRACT_ADDRESS
              Index.SERVER_ADDRESS))).
  - reflexivity.
  - discriminate.
Defined.

(** * Further properties of the two scripts *)

(** ** The later revision: exactly which sessions verify *)

Section IndexComplete.

Variable sc : Index.StateChannel.

Local Abbreviation keccak := (Index.keccak sc).
Local Abbreviation betOk ca sa bet :=
  (Index.verifySignature sc (Index.signedBetData bet) Index.CHAIN_ID
     ca (Bet.serverSig bet) sa = true
   /\ Index.verifySignature sc (Index.signedBetData bet) Index.CHAIN_ID
        ca (Bet.userSig bet) (User.address (Bet.user bet)) = true
   /\ Bet.resultNum bet =
      Index.calcResultNumber sc (Bet.gameType bet) (Bet.serverSeed bet)
        (Bet.userSeed bet) (Bet.num bet)).

(** An iteration whose checks all hold does not throw. *)
Lemma checkBet_passes balance ca sa i st bet :
  betOk ca sa bet ->
  Session.seedsCommitted keccak bet ->
  (i <> 0%nat ->
   userPrevHash st = Some (keccak (Bet.userHash bet))
   /\ serverPrevHash st = Some (keccak (Bet.serverHash bet))) ->
  Bet.balance bet = prevBalance st ->
  Index.checkBet sc balance ca sa i st bet
  = inr {| userPrevHash := Some (Bet.userHash bet);
           serverPrevHash := Some (Bet.serverHash bet);
           prevBalance :=
             Session.advance (Index.calcNewBalance sc) (prevBalance st) bet |}.
Proof.
  intros (Hs & Hu & Hres) [Hss Hus] Hlink Hbal.
  unfold Index.checkBet. rewrite Hs, Hu. simpl.
  apply sne_string_false in Hss, Hus. rewrite Hss, Hus.
  assert (Hl : negb (Nat.eqb i 0)
               && sne_var (keccak (Bet.userHash bet)) (userPrevHash st)
               = false
               /\ negb (Nat.eqb i 0)
                  && sne_var (keccak (Bet.serverHash bet)) (serverPrevHash st)
                  = false).
  { destruct (Nat.eqb i 0) eqn:Ei; [split; reflexivity|].
    apply Nat.eqb_neq in Ei. destruct (Hlink Ei) as [Hu' Hs'].
    apply sne_var_false in Hu', Hs'. now rewrite Hu', Hs'. }
  destruct Hl as [Hl1 Hl2]. rewrite Hl1, Hl2.
  apply sne_Z_false in Hres, Hbal. now rewrite Hres, Hbal.
Qed.

Lemma chained_tail (hash : string -> string) bet rest :
  Session.chained hash (bet :: rest) -> Session.chained hash rest.
Proof. intros H i prev cur Hp Hc. exact (H (S i) prev cur Hp Hc). Qed.

(** The loop runs to its end on a sequence whose checks all hold. *)
Lemma loop_passes balance ca sa (l : list Bet.t) : forall i st,
  Forall (fun bet => betOk ca sa bet) l ->
  Forall (Session.seedsCommitted keccak) l ->
  Session.chained keccak l ->
  (forall first, nth_error l 0 = Some first -> i <> 0%nat ->
     userPrevHash st = Some (keccak (Bet.userHash first))
     /\ serverPrevHash st = Some (keccak (Bet.serverHash first))) ->
  (forall pre bet post, l = pre ++ bet :: post ->
     Bet.balance bet =
     Session.replayFrom (Index.calcNewBalance sc) (prevBalance st) pre) ->
  exists st', Index.loop sc balance ca sa i st l = inr st'.
Proof.
  unfold Index.loop.
  induction l as [|bet l IH]; intros i st Hok Hseed Hchain Hfirst Hbal.
  - exists st. reflexivity.
  - inversion Hok as [|? ? Hb Hok']; subst.
    inversion Hseed as [|? ? Hsd Hseed']; subst.
    simpl. rewrite (checkBet_passes balance ca sa i st bet Hb Hsd).
    + apply IH; auto.
      * eapply chained_tail, Hchain.
      * intros first Hf _. simpl.
        destruct (Hchain 0%nat bet first eq_refl Hf) as [Hs Hu].
        now rewrite Hs, Hu.
      * intros pre b post E. simpl.
        apply (Hbal (bet :: pre) b post). simpl. now rewrite E.
    + intros Hi. apply (Hfirst bet eq_refl Hi).
    + apply (Hbal [] bet l eq_refl).
Qed.

(** X1.  [Index.verifyBets] returns [true] exactly on the sessions that are
    valid: the count is the expected one and, read in chronological order,
    the bets form the two hash chains from the end hashes, carry valid
    signatures and the recomputed outcomes, declare the replayed balances
    and, for a regular end, replay to the settled balance.  The one
    exception is the empty array, accepted only when the final round id
    is 0. *)
Theorem index_verifyBets_success_iff
    gameId bets roundId balance sEnd uEnd regularEnded ca sa :
  snd (Index.verifyBets sc gameId bets roundId balance sEnd uEnd
         regularEnded ca sa) = inr true
  <-> Z.of_nat (List.length bets) = Session.expectedCount roundId regularEnded
      /\ (bets = [] -> roundId = 0)
      /\ indexSessionValid sc balance sEnd uEnd regularEnded ca sa (rev bets).
Proof.
  split.
  - intros H.
    assert (Hempty : bets = [] -> roundId = 0).
    { intros ->. revert H. unfold Index.verifyBets.
      destruct (sne_Z _ _); simpl; [discriminate|].
      destruct (roundId =? 0) eqn:Hr; simpl; [|discriminate].
      intros _. now apply Z.eqb_eq. }
    apply verifyBets_inr in H.
    destruct H as (_ & Hcount & Hanch & st & Hloop & Hfin).
    split; [assumption|]. split; [assumption|].
    pose proof (loop_Forall _ _ _ _ _ _ _ _ Hloop) as HF.
    repeat apply conj.
    + eapply Forall_impl, HF. simpl. tauto.
    + exact Hanch.
    + eapply loop_chained, Hloop.
    + eapply Forall_impl, HF. simpl. tauto.
    + intros pre bet post E. rewrite E in Hloop.
      apply loop_balances in Hloop. exact Hloop.
    + intros Hr. apply loop_replay in Hloop. simpl in Hloop.
      unfold Session.replay. rewrite <- Hloop. auto.
  - intros (Hcount & Hempty & (Hseed & Hanch & Hchain) & Hok & Hbal & Hfin).
    destruct bets as [|b bets'] eqn:Eb.
    + rewrite (Hempty eq_refl) in *. unfold Index.verifyBets.
      rewrite expectedCount_numBets.
      apply sne_Z_false in Hcount. now rewrite Hcount.
    + rewrite <- Eb in *.
      assert (Hne : bets <> []) by (rewrite Eb; discriminate).
      rewrite (verifyBets_run sc gameId _ _ balance _ _ _ ca sa
                 Hcount Hne Hanch). simpl.
      destruct (loop_passes balance ca sa (rev bets) 0 initLoop)
        as [st Hloop]; auto.
      { intros first _ Hi. contradiction. }
      rewrite Hloop. apply loop_replay in Hloop. simpl in Hloop.
      destruct regularEnded; [|reflexivity].
      specialize (Hfin eq_refl). unfold Session.replay in Hfin.
      rewrite <- Hloop in Hfin. apply sne_Z_false in Hfin.
      now rewrite Hfin.
Qed.

End IndexComplete.

(** ** The later revision: errors, seeds and the array *)

Section IndexMore.

Variable sc : Index.StateChannel.

Local Abbreviation keccak := (Index.keccak sc).

(** With the expected count and a non-empty array, the final round id is
    not 0 and the run is the code after the reversal. *)
Lemma verifyBets_nonempty
    gameId bets roundId balance sEnd uEnd regularEnded ca sa first rest :
  Z.of_nat (List.length bets) = Session.expectedCount roundId regularEnded ->
  rev bets = first :: rest ->
  snd (Index.verifyBets sc gameId bets roundId balance sEnd uEnd
         regularEnded ca sa)
  = (when (sne_string sEnd (Bet.serverHash first))
     throw InvalidFirstBetServerHash ;;
     when (sne_string uEnd (Bet.userHash first))
     throw InvalidFirstBetUserHash ;;
     match Index.loop sc balance ca sa 0 initLoop (first :: rest) with
     | inl e => inl e
     | inr st =>
         when (regularEnded && sne_Z balance (prevBalance st))
         throw (InvalidGameSessionBalance (prevBalance st) balance) ;;
         inr true
     end).
Proof.
  intros Hcount E. unfold Index.verifyBets. rewrite expectedCount_numBets.
  pose proof Hcount as Hc. apply sne_Z_false in Hc. rewrite Hc.
  assert (Hr : (roundId =? 0) = false).
  { apply Z.eqb_neq. intros ->.
    assert (Hlen : List.length (rev bets) = S (List.length rest))
      by now rewrite E.
    rewrite length_rev in Hlen.
    destruct regularEnded; unfold Session.expectedCount in Hcount; lia. }
  rewrite Hr. simpl. now rewrite E.
Qed.

(** None of the errors of the code around the loop comes out of the loop. *)
Lemma loop_error_kind balance ca sa l e :
  Index.loop sc balance ca sa 0 initLoop l = inl e ->
  match e with
  | InvalidServerSignature _ | InvalidPlayerSignature _
  | InvalidUserSeed _ | InvalidServerSeed _ | InvalidHashChain
  | InvalidNumber _ _ => True
  | InvalidBalance _ shown => shown = balance
  | _ => False
  end.
Proof.
  intros H. apply forLoop_inl_split in H.
  destruct H as (pre & bet & post & st & _ & _ & H). revert H.
  unfold Index.checkBet.
  repeat match goal with
  | |- context [if ?c then _ else _] => destruct c
  end; intros [= <-]; auto.
Qed.

(** X3.  The only input on which [Index.verifyBets] reads [serverHash] of an
    undefined first bet: the empty array of a session that ended regularly
    with final round id 1. *)
Theorem index_undefined_first_bet_iff
    gameId bets roundId balance sEnd uEnd regularEnded ca sa :
  snd (Index.verifyBets sc gameId bets roundId balance sEnd uEnd
         regularEnded ca sa) = inl UndefinedFirstBet
  <-> bets = [] /\ roundId = 1 /\ regularEnded = true.
Proof.
  split.
  - intros H. pose proof H as H'. apply verifyBets_inl in H'.
    destruct H' as [[H' _]|[[_ ->]|[H'|[H'|[H'|(st & _ & _ & _ & H')]]]]];
      try discriminate.
    + revert H. unfold Index.verifyBets. simpl.
      destruct (sne_Z _ _) eqn:Hc; simpl; [discriminate|].
      destruct (roundId =? 0) eqn:Hr; simpl; [discriminate|].
      intros _. apply sne_Z_false in Hc. apply Z.eqb_neq in Hr.
      destruct regularEnded; [split; [reflexivity|split; [lia|reflexivity]]|].
      lia.
    + apply loop_error_kind in H'. contradiction.
  - intros (-> & -> & ->). reflexivity.
Qed.

(** X5.  The two end-hash errors.  "Invalid first bet serverHash" is thrown
    exactly when the count is the expected one and the earliest bet (the
    last of the array) does not declare the server end hash; "Invalid first
    bet user Hash" exactly when, moreover, the server end hash is declared
    and the user end hash is not. *)
Theorem index_end_hash_errors
    gameId bets roundId balance sEnd uEnd regularEnded ca sa :
  let result :=
    snd (Index.verifyBets sc gameId bets roundId balance sEnd uEnd
           regularEnded ca sa) in
  let counted :=
    Z.of_nat (List.length bets) = Session.expectedCount roundId regularEnded in
  (result = inl InvalidFirstBetServerHash
   <-> counted
       /\ exists later earliest, bets = later ++ [earliest]
            /\ sEnd <> Bet.serverHash earliest)
  /\ (result = inl InvalidFirstBetUserHash
      <-> counted
          /\ exists later earliest, bets = later ++ [earliest]
               /\ sEnd = Bet.serverHash earliest
               /\ uEnd <> Bet.userHash earliest).
Proof.
  intros result counted; subst result counted.
  assert (Hlast : forall first rest,
            rev bets = first :: rest -> bets = rev rest ++ [first]).
  { intros first rest E. apply (f_equal (@rev _)) in E.
    now rewrite rev_involutive in E. }
  assert (Hhead : forall later earliest,
            bets = later ++ [earliest] -> rev bets = earliest :: rev later).
  { intros later earliest ->. now rewrite rev_app_distr. }
  split; split.
  - intros H. pose proof H as H'. apply verifyBets_inl in H'.
    destruct H' as [[H' _]|[[H' _]|[_|[H'|[H'|(st & _ & _ & _ & H')]]]]];
      try discriminate;
      [|apply loop_error_kind in H'; contradiction].
    revert H. unfold Index.verifyBets. rewrite expectedCount_numBets.
    destruct (sne_Z _ _) eqn:Hc; simpl; [discriminate|].
    apply sne_Z_false in Hc.
    destruct (roundId =? 0); simpl; [discriminate|].
    destruct (rev bets) as [|first rest] eqn:E; [discriminate|].
    destruct (sne_string sEnd _) eqn:Hs.
    + intros _. split; [assumption|]. exists (rev rest), first.
      apply sne_string_true in Hs. eauto.
    + destruct (sne_string uEnd _); [discriminate|].
      destruct (Index.loop _ _ _ _ _ _ _) as [e|st] eqn:Hl.
      * intros [= ->]. apply loop_error_kind in Hl. contradiction.
      * destruct (regularEnded && _); discriminate.
  - intros (Hcount & later & earliest & Hl & Hne).
    rewrite (verifyBets_nonempty _ _ _ _ _ _ _ _ _ _ _ Hcount (Hhead _ _ Hl)).
    apply sne_string_true in Hne. now rewrite Hne.
  - intros H. pose proof H as H'. apply verifyBets_inl in H'.
    destruct H' as [[H' _]|[[H' _]|[H'|[_|[H'|(st & _ & _ & _ & H')]]]]];
      try discriminate;
      [|apply loop_error_kind in H'; contradiction].
    revert H. unfold Index.verifyBets. rewrite expectedCount_numBets.
    destruct (sne_Z _ _) eqn:Hc; simpl; [discriminate|].
    apply sne_Z_false in Hc.
    destruct (roundId =? 0); simpl; [discriminate|].
    destruct (rev bets) as [|first rest] eqn:E; [discriminate|].
    destruct (sne_string sEnd _) eqn:Hs; [discriminate|].
    destruct (sne_string uEnd _) eqn:Hu.
    + intros _. split; [assumption|]. exists (rev rest), first.
      apply sne_string_false in Hs. apply sne_string_true in Hu. eauto.
    + destruct (Index.loop _ _ _ _ _ _ _) as [e|st] eqn:Hl.
      * intros [= ->]. apply loop_error_kind in Hl. contradiction.
      * destruct (regularEnded && _); discriminate.
  - intros (Hcount & later & earliest & Hl & He & Hne).
    rewrite (verifyBets_nonempty _ _ _ _ _ _ _ _ _ _ _ Hcount (Hhead _ _ Hl)).
    apply sne_string_false in He. apply sne_string_true in Hne.
    now rewrite He, Hne.
Qed.

(** Along a chain, the declared hashes of the first record are iterated
    hashes of the declared hashes of every later one. *)
Lemma chained_iter (hash : string -> string) l first :
  Session.chained hash l ->
  nth_error l 0 = Some first ->
  forall k bet, nth_error l k = Some bet ->
    Bet.serverHash first = Nat.iter k hash (Bet.serverHash bet)
    /\ Bet.userHash first = Nat.iter k hash (Bet.userHash bet).
Proof.
  intros Hchain Hfirst. induction k as [|k IH]; intros bet Hk.
  - rewrite Hfirst in Hk. injection Hk as ->. split; reflexivity.
  - destruct (nth_error l k) as [prev|] eqn:Hp.
    + destruct (Hchain k prev bet Hp Hk) as [Hs Hu].
      destruct (IH prev eq_refl) as [IHs IHu].
      rewrite !Nat.iter_succ_r, Hs, Hu. auto.
    + apply nth_error_None in Hp.
      assert (Hnone : nth_error l (S k) = None)
        by (apply nth_error_None; lia).
      congruence.
Qed.

(** X6.  In a session that verifies, every revealed seed leads to the end hash
    published for its side: the seeds of the bet at chronological index [k]
    hash to the two end hashes in [k + 1] steps. *)
Theorem index_seeds_reach_end_hashes
    gameId bets roundId balance sEnd uEnd regularEnded ca sa k bet :
  snd (Index.verifyBets sc gameId bets roundId balance sEnd uEnd
         regularEnded ca sa) = inr true ->
  nth_error (rev bets) k = Some bet ->
  sEnd = Nat.iter (S k) keccak (Bet.serverSeed bet)
  /\ uEnd = Nat.iter (S k) keccak (Bet.userSeed bet).
Proof.
  intros H Hk. apply verifyBets_inr in H.
  destruct H as (_ & _ & Hanch & st & Hloop & _).
  pose proof (loop_chained _ _ _ _ _ _ _ _ Hloop) as Hchain.
  pose proof (loop_Forall _ _ _ _ _ _ _ _ Hloop) as HF.
  rewrite Forall_forall in HF.
  destruct (HF bet (nth_error_In _ _ Hk)) as (_ & _ & [Hss Hus] & _).
  destruct (nth_error (rev bets) 0) as [first|] eqn:Hf.
  - destruct (Hanch first Hf) as [<- <-].
    destruct (chained_iter keccak _ _ Hchain Hf k bet Hk) as [Hs Hu].
    rewrite !Nat.iter_succ_r, Hss, Hus. auto.
  - apply nth_error_None in Hf.
    assert (Hnone : nth_error (rev bets) k = None)
      by (apply nth_error_None; lia).
    congruence.
Qed.

(** X7.  The "Invalid balance" error shows, as the value the declared balance
    should have had, the settled balance handed to [verifyBets], whatever
    the running balance is. *)
Theorem index_invalid_balance_shows_settled
    gameId bets roundId balance sEnd uEnd regularEnded ca sa declared shown :
  snd (Index.verifyBets sc gameId bets roundId balance sEnd uEnd
         regularEnded ca sa) = inl (InvalidBalance declared shown) ->
  shown = balance.
Proof.
  intros H. apply verifyBets_inl in H.
  destruct H as [[H _]|[[H _]|[H|[H|[H|(st & _ & _ & _ & H)]]]]];
    try discriminate.
  apply loop_error_kind in H. exact H.
Qed.

(** X8.  Two runs with the same endpoint data leave the array in the order it was
    supplied in: the second run undoes the reversal of the first. *)
Theorem index_two_runs_restore_order
    gameId bets roundId balance sEnd uEnd regularEnded ca sa :
  let run bets :=
    Index.verifyBets sc gameId bets roundId balance sEnd uEnd regularEnded
      ca sa in
  fst (run (fst (run bets))) = bets.
Proof.
  intros run; subst run. unfold Index.verifyBets.
  destruct (sne_Z (Z.of_nat (List.length bets)) _) eqn:Hc; simpl.
  - now rewrite Hc.
  - destruct (roundId =? 0) eqn:Hr; simpl.
    + now rewrite Hc.
    + rewrite length_rev, Hc. simpl. apply rev_involutive.
Qed.

End IndexMore.

(** ** The earlier revision: exactly which sessions verify *)

Section Part000Complete.

Variable sc : Part000.StateChannel.

Local Abbreviation keccak := (Part000.keccak sc).
Local Abbreviation betOk version bet :=
  (Part000.verifySignature sc (Part000.signedBetData bet) Part000.CHAIN_ID
     (Bet.contractAddress bet) (Bet.serverSig bet) Part000.SERVER_ADDRESS
     version = true
   /\ Part000.verifySignature sc (Part000.signedBetData bet) Part000.CHAIN_ID
        (Bet.contractAddress bet) (Bet.userSig bet)
        (User.address (Bet.user bet)) version = true
   /\ Bet.resultNum bet =
      Part000.calcResultNumber sc (Bet.gameType bet) (Bet.serverSeed bet)
        (Bet.userSeed bet)).
Local Abbreviation next st bet :=
  {| userPrevHash := Some (Bet.userHash bet);
     serverPrevHash := Some (Bet.serverHash bet);
     prevBalance :=
       Session.advance (Part000.calcNewBalance sc) (prevBalance st) bet |}.

Lemma part000_checkBet_inv balance version i st bet st' :
  Part000.checkBet sc balance version i st bet = inr st' ->
  betOk version bet
  /\ Bet.balance bet = prevBalance st
  /\ st' = next st bet.
Proof.
  unfold Part000.checkBet.
  repeat match goal with
  | |- context [if ?c then _ else _] => let E := fresh "E" in destruct c eqn:E
  end; intros H; try discriminate; guards.
  injection H as <-. repeat split; auto.
Qed.

Lemma part000_checkBet_passes balance version i st bet :
  betOk version bet ->
  Session.seedsCommitted keccak bet ->
  (i <> 0%nat ->
   userPrevHash st = Some (keccak (Bet.userHash bet))
   /\ serverPrevHash st = Some (keccak (Bet.serverHash bet))) ->
  Bet.balance bet = prevBalance st ->
  Part000.checkBet sc balance version i st bet = inr (next st bet).
Proof.
  intros (Hs & Hu & Hres) [Hss Hus] Hlink Hbal.
  unfold Part000.checkBet. rewrite Hs, Hu. simpl.
  apply sne_string_false in Hss, Hus. rewrite Hss, Hus.
  assert (Hl : negb (Nat.eqb i 0)
               && sne_var (keccak (Bet.userHash bet)) (userPrevHash st)
               = false
               /\ negb (Nat.eqb i 0)
                  && sne_var (keccak (Bet.serverHash bet)) (serverPrevHash st)
                  = false).
  { destruct (Nat.eqb i 0) eqn:Ei; [split; reflexivity|].
    apply Nat.eqb_neq in Ei. destruct (Hlink Ei) as [Hu' Hs'].
    apply sne_var_false in Hu', Hs'. now rewrite Hu', Hs'. }
  destruct Hl as [Hl1 Hl2]. rewrite Hl1, Hl2.
  apply sne_Z_false in Hres, Hbal. now rewrite Hres, Hbal.
Qed.

(** What a loop that ran to its end says about every bet and about the
    running balance. *)
Lemma part000_loop_inv balance version (l : list Bet.t) : forall i st st',
  Part000.loop sc balance version i st l = inr st' ->
  Forall (fun bet => betOk version bet) l
  /\ (forall pre bet post, l = pre ++ bet :: post ->
        Bet.balance bet =
        Session.replayFrom (Part000.calcNewBalance sc) (prevBalance st) pre)
  /\ prevBalance st' =
     Session.replayFrom (Part000.calcNewBalance sc) (prevBalance st) l.
Proof.
  unfold Part000.loop.
  induction l as [|bet l IH]; intros i st st' H; simpl in H.
  - injection H as <-. split; [constructor|]. split; [|reflexivity].
    intros [|? ?] ? ? E; discriminate.
  - destruct (Part000.checkBet sc balance version i st bet) as [e|st1] eqn:E;
      [discriminate|].
    apply part000_checkBet_inv in E. destruct E as (Hok & Hbal & ->).
    destruct (IH _ _ _ H) as (HF & Hbals & Hfin). simpl in Hbals, Hfin.
    split; [constructor; assumption|]. split; [|exact Hfin].
    intros [|b pre] b' post E.
    + injection E as <- _. exact Hbal.
    + injection E as <- E. simpl. apply (Hbals pre b' post E).
Qed.

Lemma part000_loop_passes balance version (l : list Bet.t) : forall i st,
  Forall (fun bet => betOk version bet) l ->
  Forall (Session.seedsCommitted keccak) l ->
  Session.chained keccak l ->
  (forall first, nth_error l 0 = Some first -> i <> 0%nat ->
     userPrevHash st = Some (keccak (Bet.userHash first))
     /\ serverPrevHash st = Some (keccak (Bet.serverHash first))) ->
  (forall pre bet post, l = pre ++ bet :: post ->
     Bet.balance bet =
     Session.replayFrom (Part000.calcNewBalance sc) (prevBalance st) pre) ->
  exists st', Part000.loop sc balance version i st l = inr st'.
Proof.
  unfold Part000.loop.
  induction l as [|bet l IH]; intros i st Hok Hseed Hchain Hfirst Hbal.
  - exists st. reflexivity.
  - inversion Hok as [|? ? Hb Hok']; subst.
    inversion Hseed as [|? ? Hsd Hseed']; subst.
    simpl. rewrite (part000_checkBet_passes balance version i st bet Hb Hsd).
    + apply IH; auto.
      * eapply chained_tail, Hchain.
      * intros first Hf _. simpl.
        destruct (Hchain 0%nat bet first eq_refl Hf) as [Hs Hu].
        now rewrite Hs, Hu.
      * intros pre b post E. simpl.
        apply (Hbal (bet :: pre) b post). simpl. now rewrite E.
    + intros Hi. apply (Hfirst bet eq_refl Hi).
    + apply (Hbal [] bet l eq_refl).
Qed.

(** The errors that can come out of the loop of this revision. *)
Lemma part000_loop_error_kind balance version l i st e :
  Part000.loop sc balance version i st l = inl e ->
  match e with
  | InvalidServerSignature _ | InvalidPlayerSignature _
  | InvalidUserSeed _ | InvalidServerSeed _ | InvalidHashChain
  | InvalidNumber _ _ => True
  | InvalidBalance _ shown => shown = balance
  | _ => False
  end.
Proof.
  intros H. apply forLoop_inl_split in H.
  destruct H as (pre & bet & post & st1 & _ & _ & H). revert H.
  unfold Part000.checkBet.
  repeat match goal with
  | |- context [if ?c then _ else _] => destruct c
  end; intros [= <-]; auto.
Qed.

(** X2.  [Part000.verifyBets] returns [true] exactly on the non-empty sessions
    that are valid, where validity includes that the settled balance is the
    replayed one however the session ended, and where signatures are
    checked under the contract address each bet carries and the signature
    version of the game id. *)
Theorem part000_verifyBets_success_iff
    gameId bets roundId balance sEnd uEnd regularEnded :
  snd (Part000.verifyBets sc gameId bets roundId balance sEnd uEnd
         regularEnded) = inr true
  <-> Z.of_nat (List.length bets) = Session.expectedCount roundId regularEnded
      /\ bets <> []
      /\ part000SessionValid sc balance sEnd uEnd
           (Part000.getSignatureVersion gameId) (rev bets).
Proof.
  unfold Part000.verifyBets. rewrite expectedCount_numBets. split.
  - destruct (sne_Z _ _) eqn:Hc; simpl; [discriminate|].
    apply sne_Z_false in Hc.
    destruct (rev bets) as [|first rest] eqn:E; [discriminate|].
    destruct (sne_string sEnd _) eqn:Hs; [discriminate|].
    destruct (sne_string uEnd _) eqn:Hu; [discriminate|].
    destruct (Part000.loop _ _ _ _ _ _) as [e|st] eqn:Hloop; [discriminate|].
    destruct (sne_Z balance _) eqn:Hfin; [discriminate|].
    intros _. guards.
    split; [assumption|]. split.
    { intros ->. discriminate. }
    destruct (part000_loop_inv _ _ _ _ _ _ Hloop) as (HF & Hbals & Hrep).
    pose proof (part000_loop_Forall sc _ _ _ _ _ _ Hloop) as HF'.
    change (prevBalance st
            = Session.replay (Part000.calcNewBalance sc) (first :: rest))
      in Hrep.
    repeat apply conj.
    + eapply Forall_impl, HF'. simpl. tauto.
    + apply (anchored_cons keccak). auto.
    + eapply part000_loop_chained, Hloop.
    + exact HF.
    + exact Hbals.
    + now rewrite <- Hrep.
  - intros (Hcount & Hne & (Hseed & Hanch & Hchain) & Hok & Hbal & Hfin).
    apply sne_Z_false in Hcount. rewrite Hcount. simpl.
    destruct (rev bets) as [|first rest] eqn:E.
    { apply (f_equal (@rev _)) in E. rewrite rev_involutive in E.
      contradiction. }
    apply (anchored_cons keccak) in Hanch. destruct Hanch as [Hs Hu].
    apply sne_string_false in Hs, Hu. rewrite Hs, Hu.
    destruct (part000_loop_passes balance (Part000.getSignatureVersion gameId)
                (first :: rest) 0 initLoop) as [st Hloop]; auto.
    { intros f _ Hi. contradiction. }
    rewrite Hloop.
    destruct (part000_loop_inv _ _ _ _ _ _ Hloop) as (_ & _ & Hrep).
    change (prevBalance st
            = Session.replay (Part000.calcNewBalance sc) (first :: rest))
      in Hrep.
    rewrite <- Hrep in Hfin.
    apply sne_Z_false in Hfin. now rewrite Hfin.
Qed.

(** X4.  [Part000.verifyBets] reads [serverHash] of an undefined first bet on
    every empty array that passes the count check, and on no other input. *)
Theorem part000_undefined_first_bet_iff
    gameId bets roundId balance sEnd uEnd regularEnded :
  snd (Part000.verifyBets sc gameId bets roundId balance sEnd uEnd
         regularEnded) = inl UndefinedFirstBet
  <-> bets = [] /\ Session.expectedCount roundId regularEnded = 0.
Proof.
  unfold Part000.verifyBets. rewrite expectedCount_numBets. split.
  - destruct (sne_Z _ _) eqn:Hc; simpl; [discriminate|].
    apply sne_Z_false in Hc.
    destruct (rev bets) as [|first rest] eqn:E.
    + intros _. apply (f_equal (@rev _)) in E. rewrite rev_involutive in E.
      subst bets. simpl in Hc. auto.
    + destruct (sne_string sEnd _); [discriminate|].
      destruct (sne_string uEnd _); [discriminate|].
      destruct (Part000.loop _ _ _ _ _ _) as [e|st] eqn:Hloop.
      * intros [= ->]. apply part000_loop_error_kind in Hloop. contradiction.
      * destruct (sne_Z balance _); discriminate.
  - intros [-> H]. simpl. now rewrite H.
Qed.

End Part000Complete.

(** ** The ledger reader *)

Section LedgerFacts.

Variable numbers : Numbers.

Lemma getGameData_inr contract gameId gameData :
  getGameData numbers contract gameId = inr gameData
  <-> exists created ended,
        createdOnce numbers contract gameId created
        /\ endedOnce numbers contract gameId ended
        /\ gameData = gameDataOf numbers created ended.
Proof.
  unfold getGameData, createdOnce, endedOnce. split.
  - destruct (pastLogGameCreated contract gameId) as [|created [|? ?]];
      try discriminate.
    destruct (sne_Z _ gameId) eqn:Hc; [discriminate|].
    destruct (pastLogGameEnded contract gameId) as [|ended [|? ?]];
      try discriminate.
    destruct (sne_Z (parseInt numbers (LogGameEnded.gameId ended)) gameId)
      eqn:He; [discriminate|].
    intros [= <-]. guards. exists created, ended. auto.
  - intros (created & ended & [-> Hc] & [-> He] & ->).
    apply sne_Z_false in Hc, He. now rewrite Hc, He.
Qed.

(** X12.  [getGameData] requires each of the two events exactly once, under the
    game id asked for.  It resolves exactly when both are there, to the
    end hashes of the creation event and the round id, converted balance
    and reason of the end event; it rejects with the creation error exactly
    when the creation event is not there exactly once, whatever the end log
    holds, and with the end error exactly when the creation event is and the
    end event is not.  Empty logs are rejected, never read at index 0. *)
Theorem getGameData_exactly_once contract gameId :
  let result := getGameData numbers contract gameId in
  (forall gameData,
     result = inr gameData
     <-> exists created ended,
           createdOnce numbers contract gameId created
           /\ endedOnce numbers contract gameId ended
           /\ gameData = gameDataOf numbers created ended)
  /\ (result = inl CouldNotReadGameCreated
      <-> forall created, ~ createdOnce numbers contract gameId created)
  /\ (result = inl CouldNotReadGameEnded
      <-> (exists created, createdOnce numbers contract gameId created)
          /\ forall ended, ~ endedOnce numbers contract gameId ended).
Proof.
  intros result; subst result. split; [apply getGameData_inr|].
  unfold getGameData, createdOnce, endedOnce.
  destruct (pastLogGameCreated contract gameId) as [|created [|? ?]];
    [| destruct (sne_Z _ gameId) eqn:Hc;
       [| destruct (pastLogGameEnded contract gameId) as [|ended [|? ?]];
          [| destruct (sne_Z (parseInt numbers (LogGameEnded.gameId ended))
                         gameId) eqn:He |] ] |];
    guards; (split; split);
    try discriminate; try reflexivity;
    try (intros _; try (split; [eauto|]);
         intros ? [E ?]; try discriminate; injection E as <-; contradiction);
    try (intros [[? [E ?]] _]; try discriminate;
         injection E as <-; contradiction);
    try (intros H; destruct (H created); auto; fail);
    try (intros [_ H]; destruct (H ended); auto; fail).
Qed.

End LedgerFacts.

(** ** From the click to the alert *)

(** The array has the same length after a run. *)
Lemma index_array_length sc gameId bets roundId balance sEnd uEnd regularEnded
    ca sa :
  List.length
    (fst (Index.verifyBets sc gameId bets roundId balance sEnd uEnd
            regularEnded ca sa))
  = List.length bets.
Proof.
  unfold Index.verifyBets.
  destruct (sne_Z _ _); simpl; [reflexivity|].
  destruct (roundId =? 0); simpl; [reflexivity|apply length_rev].
Qed.

(** The callback of the later revision shows the success alert, with the
    number of bets it was given, exactly when [verifyBets] returns. *)
Lemma index_callback_inr sc gameId bets gameData a :
  snd (Index.verifyGameSession sc gameId bets gameData) = inr a
  <-> snd (Index.verifyBets sc gameId bets (GameData.roundId gameData)
             (GameData.balance gameData) (GameData.serverEndHash gameData)
             (GameData.userEndHash gameData) (GameData.regularEnded gameData)
             (fst (Index.selectAddresses gameId))
             (snd (Index.selectAddresses gameId))) = inr true
      /\ a = AllBetsValid (List.length bets) gameId.
Proof.
  unfold Index.verifyGameSession.
  destruct (Index.selectAddresses gameId) as [c s]. simpl.
  pose proof (index_array_length sc gameId bets (GameData.roundId gameData)
                (GameData.balance gameData) (GameData.serverEndHash gameData)
                (GameData.userEndHash gameData)
                (GameData.regularEnded gameData) c s) as Hlen.
  destruct (Index.verifyBets _ _ _ _ _ _ _ _ _ _) as [arr [e|b]] eqn:E;
    simpl in *.
  - split; [discriminate|]. intros [H _]. discriminate.
  - assert (b = true) as ->.
    { eapply (verifyBets_inr sc). rewrite E. reflexivity. }
    simpl. rewrite Hlen. split.
    + intros [= <-]. auto.
    + intros [_ ->]. reflexivity.
Qed.

Lemma part000_array_length sc gameId bets roundId balance sEnd uEnd
    regularEnded :
  List.length
    (fst (Part000.verifyBets sc gameId bets roundId balance sEnd uEnd
            regularEnded))
  = List.length bets.
Proof.
  unfold Part000.verifyBets.
  destruct (sne_Z _ _); simpl; [reflexivity|apply length_rev].
Qed.

Lemma getContractAddress_supported gameId :
  (exists address, Part000.getContractAddress gameId = inr address)
  <-> 256 <= gameId.
Proof.
  unfold Part000.getContractAddress.
  destruct (gameId <? 256) eqn:E0; compare_Z.
  - split; [intros [a H]; discriminate | lia].
  - split; [auto|]. intros _.
    destruct (gameId <? 572); [eauto|]. destruct (gameId <? 638); eauto.
Qed.

(** The callback of the earlier revision. *)
Lemma part000_callback_inr sc gameId bets gameData a :
  snd (Part000.verifyGameSession sc gameId bets gameData) = inr a
  <-> 256 <= gameId
      /\ snd (Part000.verifyBets sc gameId bets (GameData.roundId gameData)
                (GameData.balance gameData) (GameData.serverEndHash gameData)
                (GameData.userEndHash gameData)
                (GameData.regularEnded gameData)) = inr true
      /\ a = AllBetsValid (List.length bets) gameId.
Proof.
  unfold Part000.verifyGameSession.
  destruct (Part000.getContractAddress gameId) as [e|addr] eqn:Ec.
  - simpl. split; [discriminate|]. intros [H _].
    apply getContractAddress_supported in H. destruct H as [x H]. congruence.
  - assert (H256 : 256 <= gameId)
      by (apply getContractAddress_supported; eauto).
    pose proof (part000_array_length sc gameId bets (GameData.roundId gameData)
                  (GameData.balance gameData)
                  (GameData.serverEndHash gameData)
                  (GameData.userEndHash gameData)
                  (GameData.regularEnded gameData)) as Hlen.
    destruct (Part000.verifyBets _ _ _ _ _ _ _ _) as [arr [e|b]] eqn:E;
      simpl in *.
    + split; [discriminate|]. intros (_ & H & _). discriminate.
    + assert (b = true) as ->.
      { eapply (part000_verifyBets_returns_true sc). rewrite E. reflexivity. }
      simpl. rewrite Hlen. split.
      * intros [= <-]. auto.
      * intros (_ & _ & ->). reflexivity.
Qed.

Section PageFacts.

Variable numbers : Numbers.
Variable browser : Browser.

(** X13.  The later revision shows "All n bets ... are valid!" exactly when the
    browser has web3 and is on the main network, the contract of the era of
    the game id logged the creation and the end of the game exactly once
    each, and [verifyBets] returns on the bets delivered, with the end
    hashes of the creation event, the round id, converted balance and
    reason of the end event, and the two addresses of that era; [n] is the
    number of bets delivered. *)
Theorem index_page_fulfilled_iff (sc : Index.StateChannel) gameId a :
  IndexPage.verifyGameSession sc numbers browser gameId = Fulfilled a
  <-> hasWeb3 browser = true
      /\ network browser = Index.CHAIN_ID
      /\ exists created ended,
           let contractAddress := fst (Index.selectAddresses gameId) in
           let serverAddress := snd (Index.selectAddresses gameId) in
           let contract := contractAt browser contractAddress in
           let gameData := gameDataOf numbers created ended in
           let bets := betsOf browser gameId in
           createdOnce numbers contract gameId created
           /\ endedOnce numbers contract gameId ended
           /\ snd (Index.verifyBets sc gameId bets
                     (GameData.roundId gameData) (GameData.balance gameData)
                     (GameData.serverEndHash gameData)
                     (GameData.userEndHash gameData)
                     (GameData.regularEnded gameData)
                     contractAddress serverAddress) = inr true
           /\ a = AllBetsValid (List.length bets) gameId.
Proof.
  unfold IndexPage.verifyGameSession.
  destruct (Index.selectAddresses gameId) as [c s] eqn:Esel. simpl.
  destruct (hasWeb3 browser); simpl;
    [|split; [discriminate|intros [H _]; discriminate]].
  destruct (sne_Z (network browser) Index.CHAIN_ID) eqn:Hn; guards.
  { split; [discriminate|]. intros (_ & H & _). contradiction. }
  destruct (getGameData numbers (contractAt browser c) gameId)
    as [e|gameData] eqn:Eg.
  - split; [discriminate|]. intros (_ & _ & created & ended & Hc & He & _).
    assert (H : getGameData numbers (contractAt browser c) gameId
                = inr (gameDataOf numbers created ended))
      by (apply getGameData_inr; eauto).
    congruence.
  - apply getGameData_inr in Eg.
    destruct Eg as (created & ended & Hc & He & ->).
    destruct (snd (Index.verifyGameSession sc gameId _ _)) as [e|a'] eqn:Ev.
    + split; [discriminate|].
      intros (_ & _ & created' & ended' & [Hc1 _] & [He1 _] & Hv & Ha).
      destruct Hc as [Hc _], He as [He _].
      assert (created' = created) as -> by congruence.
      assert (ended' = ended) as -> by congruence.
      assert (H : snd (Index.verifyGameSession sc gameId
                         (betsOf browser gameId)
                         (gameDataOf numbers created ended)) = inr a).
      { apply index_callback_inr. rewrite Esel. simpl. auto. }
      congruence.
    + apply index_callback_inr in Ev. rewrite Esel in Ev. simpl in Ev.
      destruct Ev as [Hv ->]. split.
      * intros [= <-]. repeat split; auto. exists created, ended. auto.
      * intros (_ & _ & _ & _ & _ & _ & _ & ->). reflexivity.
Qed.

(** X14.  The earlier revision shows the success alert exactly when the browser
    has web3, the game id is at least 256, the browser is on the main
    network, the contract of [getContractAddress] logged the creation and
    the end of the game exactly once each, and [verifyBets] returns on the
    bets delivered. *)
Theorem part000_page_fulfilled_iff (sc : Part000.StateChannel) gameId a :
  Part000Page.verifyGameSession sc numbers browser gameId = Fulfilled a
  <-> hasWeb3 browser = true
      /\ network browser = Part000.CHAIN_ID
      /\ exists contractAddress created ended,
           let contract := contractAt browser contractAddress in
           let gameData := gameDataOf numbers created ended in
           let bets := betsOf browser gameId in
           Part000.getContractAddress gameId = inr contractAddress
           /\ createdOnce numbers contract gameId created
           /\ endedOnce numbers contract gameId ended
           /\ snd (Part000.verifyBets sc gameId bets
                     (GameData.roundId gameData) (GameData.balance gameData)
                     (GameData.serverEndHash gameData)
                     (GameData.userEndHash gameData)
                     (GameData.regularEnded gameData)) = inr true
           /\ a = AllBetsValid (List.length bets) gameId.
Proof.
  unfold Part000Page.verifyGameSession.
  destruct (hasWeb3 browser); simpl;
    [|split; [discriminate|intros [H _]; discriminate]].
  destruct (Part000.getContractAddress gameId) as [e|c] eqn:Ec.
  { split; [discriminate|]. intros (_ & _ & c & _ & _ & H & _).
    discriminate. }
  destruct (sne_Z (network browser) Part000.CHAIN_ID) eqn:Hn; guards.
  { split; [discriminate|]. intros (_ & H & _). contradiction. }
  destruct (getGameData numbers (contractAt browser c) gameId)
    as [e|gameData] eqn:Eg.
  - split; [discriminate|].
    intros (_ & _ & c' & created & ended & [= <-] & Hc & He & _).
    assert (H : getGameData numbers (contractAt browser c) gameId
                = inr (gameDataOf numbers created ended))
      by (apply getGameData_inr; eauto).
    congruence.
  - apply getGameData_inr in Eg.
    destruct Eg as (created & ended & Hc & He & ->).
    destruct (snd (Part000.verifyGameSession sc gameId _ _)) as [e|a'] eqn:Ev.
    + split; [discriminate|].
      intros (_ & _ & c' & created' & ended' & [= <-] & [Hc1 _] & [He1 _]
              & Hv & Ha).
      destruct Hc as [Hc _], He as [He _].
      assert (created' = created) as -> by congruence.
      assert (ended' = ended) as -> by congruence.
      assert (H : snd (Part000.verifyGameSession sc gameId
                         (betsOf browser gameId)
                         (gameDataOf numbers created ended)) = inr a).
      { apply part000_callback_inr. repeat split; auto.
        apply getContractAddress_supported. eauto. }
      congruence.
    + apply part000_callback_inr in Ev. destruct Ev as (_ & Hv & ->). split.
      * intros [= <-]. repeat split; auto. exists c, created, ended. auto.
      * intros (_ & _ & _ & _ & _ & _ & _ & _ & _ & ->). reflexivity.
Qed.

End PageFacts.

(** Closes the cases of a characterisation of how a session completes. *)
Ltac page_cases :=
  repeat match goal with |- _ /\ _ => split end;
  intros;
  intuition (try discriminate; try congruence; try lia).

Section PageFailures.

Variable numbers : Numbers.
Variable browser : Browser.

(** [Index.verifyBets] never throws the error of [getContractAddress]. *)
Lemma index_never_unsupported sc gameId bets gameData :
  snd (Index.verifyGameSession sc gameId bets gameData)
  <> inl VerificationNotSupported.
Proof.
  unfold Index.verifyGameSession.
  destruct (Index.selectAddresses gameId) as [c s].
  destruct (Index.verifyBets _ _ _ _ _ _ _ _ _ _) as [arr [e|b]] eqn:E;
    simpl; [|destruct (negb b); discriminate].
  intros [= ->].
  assert (H : snd (Index.verifyBets sc gameId bets
                     (GameData.roundId gameData) (GameData.balance gameData)
                     (GameData.serverEndHash gameData)
                     (GameData.userEndHash gameData)
                     (GameData.regularEnded gameData) c s)
              = inl VerificationNotSupported) by now rewrite E.
  apply verifyBets_inl in H.
  destruct H as [[H _]|[[H _]|[H|[H|[H|(st & _ & _ & _ & H)]]]]];
    try discriminate.
  apply loop_error_kind in H. contradiction.
Qed.

(** X15.  How [verifyGameSession] of the later revision fails, in the order of
    its checks: it throws only for a browser without web3; it rejects with
    the network error exactly when web3 is there and the network is not the
    main one; it rejects with a ledger error exactly when both are in order
    and [getGameData] rejects on the contract of the era.  No game id is
    ever reported as unsupported. *)
Theorem index_page_failures (sc : Index.StateChannel) gameId :
  let completion := IndexPage.verifyGameSession sc numbers browser gameId in
  (forall e, completion = Thrown e
     <-> hasWeb3 browser = false /\ e = NeedWeb3)
  /\ (completion = Rejected NeedMainNetwork
      <-> hasWeb3 browser = true /\ network browser <> Index.CHAIN_ID)
  /\ (forall e, completion = Rejected (LedgerFailed e)
        <-> hasWeb3 browser = true /\ network browser = Index.CHAIN_ID
            /\ getGameData numbers
                 (contractAt browser (fst (Index.selectAddresses gameId)))
                 gameId = inl e)
  /\ completion <> Thrown (VerifyFailed VerificationNotSupported)
  /\ completion <> Rejected (VerifyFailed VerificationNotSupported).
Proof.
  intros completion; subst completion.
  unfold IndexPage.verifyGameSession.
  destruct (Index.selectAddresses gameId) as [c s]. simpl.
  destruct (hasWeb3 browser); simpl; [|page_cases].
  destruct (sne_Z (network browser) Index.CHAIN_ID) eqn:Hn; guards;
    [page_cases|].
  destruct (getGameData numbers (contractAt browser c) gameId)
    as [le|gameData] eqn:Eg; [page_cases|].
  destruct (snd (Index.verifyGameSession sc gameId _ _)) as [e|a] eqn:Ev;
    [|page_cases].
  assert (e <> VerificationNotSupported)
    by (intros ->; apply index_never_unsupported in Ev; exact Ev).
  page_cases.
Qed.

(** X16.  How [verifyGameSession] of the earlier revision fails before it looks
    at any data: it throws for a browser without web3 and, web3 being
    there, for every game id below 256, whatever the network and the ledger
    are; the network is checked only for a supported game id. *)
Theorem part000_page_failures (sc : Part000.StateChannel) gameId :
  let completion := Part000Page.verifyGameSession sc numbers browser gameId in
  (forall e, completion = Thrown e
     <-> (hasWeb3 browser = false /\ e = NeedWeb3)
         \/ (hasWeb3 browser = true /\ gameId < 256
             /\ e = VerifyFailed VerificationNotSupported))
  /\ (completion = Rejected NeedMainNetwork
      <-> hasWeb3 browser = true /\ 256 <= gameId
          /\ network browser <> Part000.CHAIN_ID).
Proof.
  intros completion; subst completion.
  unfold Part000Page.verifyGameSession.
  destruct (hasWeb3 browser); simpl; [|page_cases].
  pose proof (getContractAddress_supported gameId) as Hsup.
  destruct (Part000.getContractAddress gameId) as [e0|c] eqn:Ec.
  - assert (gameId < 256).
    { destruct (Z.lt_ge_cases gameId 256) as [|Hge]; [assumption|].
      apply Hsup in Hge. destruct Hge as [x Hx]. discriminate. }
    assert (e0 = VerificationNotSupported) as ->.
    { revert Ec. unfold Part000.getContractAddress.
      repeat match goal with
      | |- context [if ?c then _ else _] => destruct c
      end; congruence. }
    page_cases.
  - assert (256 <= gameId) by (apply Hsup; eauto).
    destruct (sne_Z (network browser) Part000.CHAIN_ID) eqn:Hn; guards;
      [page_cases|].
    destruct (getGameData numbers (contractAt browser c) gameId)
      as [le|gameData];
      [|destruct (snd (Part000.verifyGameSession sc gameId _ _))];
      page_cases.
Qed.

End PageFailures.

Section ClickFacts.

Variable numbers : Numbers.
Variable browser : Browser.

Lemma index_fulfilled_alert (sc : Index.StateChannel) gameId a :
  IndexPage.verifyGameSession sc numbers browser gameId = Fulfilled a ->
  a = AllBetsValid (List.length (betsOf browser gameId)) gameId.
Proof.
  unfold IndexPage.verifyGameSession.
  destruct (Index.selectAddresses gameId) as [c s]. simpl.
  destruct (hasWeb3 browser); simpl; [|discriminate].
  destruct (sne_Z _ _); [discriminate|].
  destruct (getGameData _ _ _) as [e|gameData]; [discriminate|].
  destruct (snd (Index.verifyGameSession sc gameId _ _)) as [e|a'] eqn:Ev;
    [discriminate|].
  intros [= <-]. apply index_callback_inr in Ev. tauto.
Qed.

Lemma part000_fulfilled_alert (sc : Part000.StateChannel) gameId a :
  Part000Page.verifyGameSession sc numbers browser gameId = Fulfilled a ->
  a = AllBetsValid (List.length (betsOf browser gameId)) gameId.
Proof.
  unfold Part000Page.verifyGameSession.
  destruct (hasWeb3 browser); simpl; [|discriminate].
  destruct (Part000.getContractAddress gameId); [discriminate|].
  destruct (sne_Z _ _); [discriminate|].
  destruct (getGameData _ _ _) as [e|gameData]; [discriminate|].
  destruct (snd (Part000.verifyGameSession sc gameId _ _)) as [e|a'] eqn:Ev;
    [discriminate|].
  intros [= <-]. apply part000_callback_inr in Ev. tauto.
Qed.

(** What a click leaves on the page, for a listener whose session driver
    only ever reports the number of bets delivered. *)
Lemma clickListener_outcome (verify : Z -> Completion) input page :
  (forall gameId a, verify gameId = Fulfilled a ->
     a = AllBetsValid (List.length (betsOf browser gameId)) gameId) ->
  exists notice,
    alerts (clickListener verify input page) = alerts page ++ [notice]
    /\ notice <> Verdict BetValidationFailed
    /\ match input with
       | None =>
           notice = CouldNotParseGameId
           /\ spinner (clickListener verify input page) = InlineBlock
       | Some gameId =>
           spinner (clickListener verify input page) = DisplayNone
           /\ (notice = Verdict (AllBetsValid
                                   (List.length (betsOf browser gameId)) gameId)
               \/ exists e, notice = CouldNotVerify gameId e)
       end.
Proof.
  intros Hverify. unfold clickListener.
  destruct input as [gameId|]; simpl.
  - destruct (verify gameId) as [e|e|a] eqn:Ev; simpl.
    + exists (CouldNotVerify gameId e).
      repeat split; [discriminate|eauto].
    + exists (CouldNotVerify gameId e).
      repeat split; [discriminate|eauto].
    + rewrite (Hverify _ _ Ev). eexists.
      repeat split; [discriminate|auto].
  - exists CouldNotParseGameId. repeat split. discriminate.
Qed.

(** X17.  Every click, in both revisions, shows exactly one alert, and never
    "Bet Validation failed!".  When the input does not parse, the alert is
    "Could not parse gameId" and the spinner stays on; otherwise the spinner
    is hidden and the alert is either the success alert, with the number of
    bets delivered for the parsed game id, or "Could not verify game
    session" for that game id. *)
Theorem click_outcome (index : Index.StateChannel)
    (part000 : Part000.StateChannel) input page :
  let outcome page' :=
    exists notice,
      alerts page' = alerts page ++ [notice]
      /\ notice <> Verdict BetValidationFailed
      /\ match input with
         | None => notice = CouldNotParseGameId /\ spinner page' = InlineBlock
         | Some gameId =>
             spinner page' = DisplayNone
             /\ (notice = Verdict (AllBetsValid
                                     (List.length (betsOf browser gameId))
                                     gameId)
                 \/ exists e, notice = CouldNotVerify gameId e)
         end in
  outcome (IndexPage.onClick index numbers browser input page)
  /\ outcome (Part000Page.onClick part000 numbers browser input page).
Proof.
  split.
  - apply clickListener_outcome. apply index_fulfilled_alert.
  - apply clickListener_outcome. apply part000_fulfilled_alert.
Qed.

End ClickFacts.

(** ** The page at work *)

(** A click for game 6000 on the ledger of [ToyPage]: three bets verified,
    spinner hidden. *)
Example index_click_valid_session :
  IndexPage.onClick Toy.index ToyPage.numbers ToyPage.browser (Some 6000)
    ToyPage.blank
  = {| spinner := DisplayNone; alerts := [Verdict (AllBetsValid 3 6000)] |}.
Proof. vm_compute. reflexivity. Qed.

(** The end of the game logged twice: the ledger reader rejects. *)
Example index_click_ended_twice :
  IndexPage.onClick Toy.index ToyPage.numbers
    {| hasWeb3 := true; network := 1;
       contractAt := fun address => ToyPage.endedTwice;
       betsOf := fun gameId => Toy.bets |}
    (Some 6000) ToyPage.blank
  = {| spinner := DisplayNone;
       alerts := [CouldNotVerify 6000 (LedgerFailed CouldNotReadGameEnded)] |}.
Proof. vm_compute. reflexivity. Qed.

(** An input that does not parse: the spinner is left on. *)
Example index_click_unparsable :
  IndexPage.onClick Toy.index ToyPage.numbers ToyPage.browser None
    ToyPage.blank
  = {| spinner := InlineBlock; alerts := [CouldNotParseGameId] |}.
Proof. vm_compute. reflexivity. Qed.

(** The earlier revision on game 100: thrown before anything is fetched. *)
Example part000_click_unsupported :
  Part000Page.onClick Toy.part000 ToyPage.numbers ToyPage.browser (Some 100)
    ToyPage.blank
  = {| spinner := DisplayNone;
       alerts :=
         [CouldNotVerify 100 (VerifyFailed VerificationNotSupported)] |}.
Proof. vm_compute. reflexivity. Qed.

(** The seeds of the newest bet of the three-round session reach the end
    hashes in three steps. *)
Lemma index_seeds_reach_end_hashes_witness :
  "###s"%string = Nat.iter 3 Toy.keccak "s"%string
  /\ "###u"%string = Nat.iter 3 Toy.keccak "u"%string.
Proof.
  apply (index_seeds_reach_end_hashes Toy.index 6000 Toy.bets 4 400
           "###s" "###u" true Index.CONTRACT_ADDRESS Index.SERVER_ADDRESS
           2%nat Toy.bet3);
    vm_compute; reflexivity.
Defined.

(** The second bet declares 50 where the running balance is 100: the error
    shows 400, the settled balance. *)
Lemma index_invalid_balance_shows_settled_witness :
  snd (Index.verifyBets Toy.index 6000
         [Toy.bet3;
          Toy.mkBet Index.SERVER_ADDRESS 2 7 150 50 "##s" "##u" "#s" "#u" 7;
          Toy.bet1]
         4 400 "###s" "###u" true Index.CONTRACT_ADDRESS Index.SERVER_ADDRESS)
  = inl (InvalidBalance 50 400)
  /\ 400 = 400.
Proof.
  split; [vm_compute; reflexivity|].
  apply (index_invalid_balance_shows_settled Toy.index 6000
           [Toy.bet3;
            Toy.mkBet Index.SERVER_ADDRESS 2 7 150 50 "##s" "##u" "#s" "#u" 7;
            Toy.bet1]
           4 400 "###s" "###u" true Index.CONTRACT_ADDRESS
           Index.SERVER_ADDRESS 50 400).
  vm_compute. reflexivity.
Defined.

(** ** Order of the bets *)

Lemma chained_adjacent (hash : string -> string) pre a b post :
  Session.chained hash (pre ++ a :: b :: post) -> Session.linked hash a b.
Proof.
  intros H. apply (H (List.length pre)).
  - rewrite nth_error_app2, Nat.sub_diag by lia. reflexivity.
  - rewrite nth_error_app2 by lia.
    replace (S (List.length pre) - List.length pre)%nat with 1%nat by lia.
    reflexivity.
Qed.

(** X9.  Two adjacent bets cannot change places unnoticed: if a session verifies
    both as delivered and with two adjacent bets exchanged, then the declared
    hashes of the newer of the two are their own second hashes, on both
    sides. *)
Theorem index_swap_needs_hash_cycle (sc : Index.StateChannel)
    gameId newer x y older roundId balance sEnd uEnd regularEnded ca sa :
  snd (Index.verifyBets sc gameId (newer ++ x :: y :: older) roundId balance
         sEnd uEnd regularEnded ca sa) = inr true ->
  snd (Index.verifyBets sc gameId (newer ++ y :: x :: older) roundId balance
         sEnd uEnd regularEnded ca sa) = inr true ->
  Index.keccak sc (Index.keccak sc (Bet.serverHash x)) = Bet.serverHash x
  /\ Index.keccak sc (Index.keccak sc (Bet.userHash x)) = Bet.userHash x.
Proof.
  intros H1 H2. apply verifyBets_inr in H1, H2.
  destruct H1 as (_ & _ & _ & st1 & Hl1 & _).
  destruct H2 as (_ & _ & _ & st2 & Hl2 & _).
  apply loop_chained in Hl1, Hl2.
  rewrite rev_app_distr in Hl1, Hl2. simpl in Hl1, Hl2.
  rewrite <- !app_assoc in Hl1, Hl2. simpl in Hl1, Hl2.
  apply chained_adjacent in Hl1, Hl2.
  destruct Hl1 as [Hs1 Hu1], Hl2 as [Hs2 Hu2].
  split; congruence.
Qed.

(** Under the identity hash two equal-looking bets do change places. *)
Lemma index_swap_needs_hash_cycle_witness :
  Index.keccak Degenerate.index
    (Index.keccak Degenerate.index (Bet.serverHash (Degenerate.bet 2)))
  = Bet.serverHash (Degenerate.bet 2)
  /\ Index.keccak Degenerate.index
       (Index.keccak Degenerate.index (Bet.userHash (Degenerate.bet 2)))
     = Bet.userHash (Degenerate.bet 2).
Proof.
  apply (index_swap_needs_hash_cycle Degenerate.index 6000 []
           (Degenerate.bet 2) (Degenerate.bet 1) [] 2 0 "h" "h" false
           Index.CONTRACT_ADDRESS Index.SERVER_ADDRESS);
    vm_compute; reflexivity.
Defined.

(** With the hash of [Toy], which has no such cycle, the exchange of the two
    newest bets of the three-round session is detected. *)
Example index_swap_detected :
  snd (Index.verifyBets Toy.index 6000 [Toy.bet2; Toy.bet3; Toy.bet1] 4 400
         "###s" "###u" true Index.CONTRACT_ADDRESS Index.SERVER_ADDRESS)
  = inl InvalidHashChain.
Proof. vm_compute. reflexivity. Qed.

(** ** The two threshold functions of the earlier revision *)

(** X11.  [getSignatureVersion] answers 2 exactly for the game ids that
    [getContractAddress] sends to the third contract, and 1 for every other
    game id, supported or not. *)
Theorem part000_version_follows_contract (gameId : Z) :
  (Part000.getSignatureVersion gameId = 2
   <-> Part000.getContractAddress gameId = inr Part000.CONTRACT_ADDRESS3)
  /\ (Part000.getSignatureVersion gameId = 1
      <-> Part000.getContractAddress gameId
          <> inr Part000.CONTRACT_ADDRESS3).
Proof.
  unfold Part000.getSignatureVersion, Part000.getContractAddress,
    Part000.NEW_EIP_GAME_ID, Part000.OLD_EIP_GAME_ID.
  destruct (gameId <? 256) eqn:E0; destruct (gameId <? 572) eqn:E1;
    destruct (gameId <? 638) eqn:E2; destruct (638 <=? gameId) eqn:E3;
    compare_Z; try lia; simpl;
    (split; split; intros H; try reflexivity; try discriminate;
     try (intros H'; discriminate); try (exfalso; apply H; reflexivity)).
Qed.
